(** * RAK Porcelain chatbot: retrieval, chat handlers, message routes, ingestion

    A shallow embedding of the backend's request handlers and helpers:

    - [backend/src/lib/retrieval.ts]: [retrieveRelevantDocs],
      [buildContextText], [searchProducts];
    - [backend/src/lib/openaiClient.ts] and the Supabase client that follows
      it: [getEmbedding], [chatCompletion], [saveConversation];
    - the three [POST /api/chat] handlers ([routes/chat.js],
      [server-fixed.ts], [simple-chat.ts]);
    - [backend/src/routes/messages.ts]: message send and conversation
      history;
    - the ingestion script's [chunkText].

    The hosted services (embedding API, vector-search RPC, chat-completion
    API, relational store) are inputs of the model: a [World] record gives
    what each call answers, and every handler returns, next to its HTTP
    response, the trace of the calls it made. *)

From Stdlib Require Import String Ascii List ZArith QArith Lia Bool Arith.
From Stdlib Require Import Sorted Permutation.
Import ListNotations.

Local Open Scope list_scope.
Local Open Scope string_scope.

(* ===================================================================== *)
(** * Part I. Definitions                                                 *)
(* ===================================================================== *)

(** ** JavaScript helpers *)

(** The line feed and the double quote, which a literal cannot hold. *)
Definition nl : string := String (ascii_of_nat 10) EmptyString.
Definition dquote : string := String (ascii_of_nat 34) EmptyString.

(** Truthiness of a value that is a string, [null] or [undefined]: only a
    non-empty string is truthy. *)
Definition truthy (v : option string) : bool :=
  match v with
  | Some s => negb (String.eqb s "")
  | None => false
  end.

(** [Array.prototype.join]. *)
Definition join (sep : string) (parts : list string) : string :=
  String.concat sep parts.

(** [Array.prototype.includes] on strings. *)
Fixpoint includes (l : list string) (x : string) : bool :=
  match l with
  | [] => false
  | y :: l' => String.eqb y x || includes l' x
  end.

(** ** Effects: a trace of external calls, and exceptions *)

Inductive event : Type :=
| CallEmbedding (input : string) (ok : bool)
| CallVectorSearch (match_count : Z) (ok : bool)
| CallGeneration (ok : bool)
| CallPersist (ok : bool)
| LogError (label : string).

(** A computation yields the calls it made and either the thrown error's
    message or its value. *)
Definition io (A : Type) : Type := (list event * (string + A))%type.

Definition ret {A} (a : A) : io A := ([], inr a).
Definition throw {A} (msg : string) : io A := ([], inl msg).
Definition emit (e : event) : io unit := ([e], inr tt).

Definition bind {A B} (m : io A) (k : A -> io B) : io B :=
  match m with
  | (t, inl e) => (t, inl e)
  | (t, inr a) => let (t', r) := k a in ((t ++ t')%list, r)
  end.

(** [try { m } catch (error) { h error }]. *)
Definition try_catch {A} (m : io A) (h : string -> io A) : io A :=
  match m with
  | (t, inl e) => let (t', r) := h e in ((t ++ t')%list, r)
  | (t, inr a) => (t, inr a)
  end.

Declare Scope io_scope.
Delimit Scope io_scope with io.
Notation "x <- m ;; k" := (bind m (fun x => k))
  (at level 61, m at next level, right associativity) : io_scope.
Notation "m ;;; k" := (bind m (fun _ => k))
  (at level 61, right associativity) : io_scope.

Definition trace_of {A} (m : io A) : list event := fst m.

(** ** Data model ([retrieval.ts], interface [RetrievedDocument]) *)

Record RetrievedDocument : Type := {
  product_id : string;
  source_type : string;
  source_id : option string;
  text_snippet : string;
  similarity : Q;
  metadata : string
}.

(** A citation as the handlers put it in a response: [routes/chat.js] sends
    the source id, [server-fixed.ts] and [simple-chat.ts] send the first
    hundred characters of the snippet instead. *)
Inductive ProvenanceItem : Type :=
| ProvSource (pid stype : string) (sid : option string) (sim : Q)
| ProvSnippet (pid stype snippet : string) (sim : Q).

Definition prov_product_id (p : ProvenanceItem) : string :=
  match p with
  | ProvSource pid _ _ _ => pid
  | ProvSnippet pid _ _ _ => pid
  end.

(** What a handler hands to the [conversations] table. *)
Inductive stored_docs : Type :=
| StoredRefs (l : list ProvenanceItem)
| StoredDocs (l : list RetrievedDocument).

Record ConversationData : Type := {
  session_id : string;
  user_message : string;
  assistant_key : string;
  assistant_text : string;
  docs_key : string;
  docs : stored_docs
}.

Record ChatMessage : Type := { role : string; content : string }.

(** The answer of [supabase.rpc]: [{ data, error }]. *)
Record RpcAnswer : Type := {
  data : option (list RetrievedDocument);
  error : option string
}.

(** The hosted services.  A [None] of the two OpenAI calls is a failed
    request (network error or a status that is not ok); the chat completion
    answers with the content, which may be absent.  The insert into
    [conversations] answers with [Some message] when it fails. *)
Record World : Type := {
  env_openai_api_key : bool;
  env_supabase_url : bool;
  system_prompt_file : option string;
  embeddings_api : string -> option (list Q);
  match_embeddings : list Q -> Z -> RpcAnswer;
  chat_completions_api : string -> list ChatMessage -> option (option string);
  conversations_insert : ConversationData -> option string
}.

(** ** [openaiClient.ts] and the Supabase client *)

Section Clients.
Variable w : World.

Local Open Scope io_scope.

Definition getEmbedding (text : string) : io (list Q) :=
  try_catch
    (match embeddings_api w text with
     | Some v => emit (CallEmbedding text true) ;;; ret v
     | None => emit (CallEmbedding text false) ;;;
               throw "OpenAI embedding error"
     end)
    (fun e => emit (LogError "Error getting embedding:") ;;;
              throw ("Failed to get embedding: " ++ e)).

Definition chatCompletion (systemPrompt : string)
    (messages : list ChatMessage) : io string :=
  try_catch
    (match chat_completions_api w systemPrompt messages with
     | Some c => emit (CallGeneration true) ;;;
                 ret (match c with Some s => s | None => "" end)
     | None => emit (CallGeneration false) ;;;
               throw "OpenAI chat error"
     end)
    (fun e => emit (LogError "Error getting chat completion:") ;;;
              throw ("Failed to get chat completion: " ++ e)).

Definition saveConversation (conversationData : ConversationData)
    : io unit :=
  try_catch
    (match conversations_insert w conversationData with
     | None => emit (CallPersist true) ;;; ret tt
     | Some msg => emit (CallPersist false) ;;;
                   throw ("Failed to save conversation: " ++ msg)
     end)
    (fun e => emit (LogError "Error saving conversation:") ;;; throw e).

(** ** [retrieval.ts] *)

Definition retrieveRelevantDocs (query : string) (topK : Z)
    : io (list RetrievedDocument) :=
  try_catch
    (queryEmbedding <- getEmbedding query ;;
     let r := match_embeddings w queryEmbedding topK in
     match error r with
     | Some msg => emit (CallVectorSearch topK false) ;;;
                   throw ("Vector search error: " ++ msg)
     | None => emit (CallVectorSearch topK true) ;;;
               ret (match data r with Some d => d | None => [] end)
     end)
    (fun e => emit (LogError "Error retrieving relevant docs:") ;;;
              throw ("Failed to retrieve relevant documents: " ++ e)).

End Clients.

(** [buildContextText]: one provenance tag per document, the [ID] part only
    for a truthy [source_id], the snippet on the next line, documents joined
    by an empty line. *)
Definition provenance_tag (doc : RetrievedDocument) : string :=
  "[Product: " ++ product_id doc ++ ", Source: " ++ source_type doc ++
  (if truthy (source_id doc)
   then ", ID: " ++ match source_id doc with Some s => s | None => "" end
   else "") ++ "]".

Definition buildContextText (docs : list RetrievedDocument) : string :=
  join (nl ++ nl)
    (map (fun doc => provenance_tag doc ++ nl ++ text_snippet doc) docs).

(** The context build that [simple-chat.ts] has inline: no [ID] part. *)
Definition simple_chat_context (docs : list RetrievedDocument) : string :=
  join (nl ++ nl)
    (map (fun doc =>
            ("[Product: " ++ product_id doc ++ ", Source: " ++
             source_type doc ++ "]") ++ nl ++ text_snippet doc) docs).

(** ** [searchProducts] *)

Record Snippet : Type := {
  snippet_source_type : string;
  snippet_text : string;
  snippet_similarity : Q
}.

Record ProductHit : Type := {
  hit_product_id : string;
  max_similarity : Q;
  relevant_snippets : list Snippet
}.

(** The [Map] of the source keeps its keys in insertion order, and
    [Array.from(productMap.values())] reads them in that order: an
    association list, where [set] on a present key replaces the value in
    place and [set] on a new key appends. *)
Definition ProductMap : Type := list (string * ProductHit).

Fixpoint map_has (m : ProductMap) (k : string) : bool :=
  match m with
  | [] => false
  | (k', _) :: m' => String.eqb k' k || map_has m' k
  end.

Fixpoint map_get (m : ProductMap) (k : string) : option ProductHit :=
  match m with
  | [] => None
  | (k', v) :: m' => if String.eqb k' k then Some v else map_get m' k
  end.

Fixpoint map_set (m : ProductMap) (k : string) (v : ProductHit)
    : ProductMap :=
  match m with
  | [] => [(k, v)]
  | (k', v') :: m' =>
      if String.eqb k' k then (k, v) :: m' else (k', v') :: map_set m' k v
  end.

Definition map_values (m : ProductMap) : list ProductHit := map snd m.

(** The object pushed on [relevant_snippets]. *)
Definition snippet_of (doc : RetrievedDocument) : Snippet :=
  {| snippet_source_type := source_type doc;
     snippet_text := text_snippet doc;
     snippet_similarity := similarity doc |}.

(** [a > b] on the similarity scores. *)
Definition Qgtb (a b : Q) : bool := negb (Qle_bool a b).

(** One turn of the [for (const doc of docs)] loop.  The object fetched by
    [productMap.get] is the one the map holds, so the two mutations are
    written back at the key. *)
Definition group_step (productMap : ProductMap) (doc : RetrievedDocument)
    : ProductMap :=
  let productMap1 :=
    if negb (map_has productMap (product_id doc))
    then map_set productMap (product_id doc)
           {| hit_product_id := product_id doc;
              max_similarity := similarity doc;
              relevant_snippets := [] |}
    else productMap in
  match map_get productMap1 (product_id doc) with
  | None => productMap1
  | Some product =>
      let pushed := (relevant_snippets product ++ [snippet_of doc])%list in
      map_set productMap1 (product_id doc)
        {| hit_product_id := hit_product_id product;
           max_similarity :=
             if Qgtb (similarity doc) (max_similarity product)
             then similarity doc else max_similarity product;
           relevant_snippets := pushed |}
  end.

Definition group_by_product (docs : list RetrievedDocument) : ProductMap :=
  fold_left group_step docs [].

(** [Array.prototype.sort] with the comparator
    [(a, b) => b.max_similarity - a.max_similarity].  The sort of the
    language is stable, and a stable sort has one result: it is written here
    as an insertion sort that puts an element before the first one whose
    score is not larger. *)
Fixpoint sort_insert (x : ProductHit) (l : list ProductHit)
    : list ProductHit :=
  match l with
  | [] => [x]
  | y :: l' =>
      if Qle_bool (max_similarity y) (max_similarity x)
      then x :: y :: l'
      else y :: sort_insert x l'
  end.

Definition sort_by_similarity (l : list ProductHit) : list ProductHit :=
  fold_right sort_insert [] l.

Definition rank_products (docs : list RetrievedDocument) : list ProductHit :=
  sort_by_similarity (map_values (group_by_product docs)).

Definition searchProducts (w : World) (query : string) (topK : Z)
    : io (list ProductHit) :=
  try_catch
    (bind (retrieveRelevantDocs w query topK)
       (fun docs => ret (rank_products docs)))
    (fun e => bind (emit (LogError "Error searching products:"))
                (fun _ => throw e)).

(** ** The [POST /api/chat] handlers *)

(** The body of the request.  A field is a string or is absent; a value of
    another JSON type is not modelled ([routes/chat.js] refuses it like an
    absent one, by its [typeof] test). *)
Record ChatRequest : Type := {
  message : option string;
  sessionId : option string
}.

(** [retrieved_docs] is an empty array in the escalation answer of
    [routes/chat.js] and a count everywhere else. *)
Inductive RetrievedDocsField : Type :=
| RdEmptyArray
| RdCount (n : nat).

Inductive ResponseBody : Type :=
| BodyAnswer (answer : string) (provenance : list ProvenanceItem)
    (retrieved_docs : RetrievedDocsField)
| BodyError (err : string) (detail : option string).

Record HttpResponse : Type := {
  status : nat;
  body : ResponseBody
}.

Definition json (b : ResponseBody) : HttpResponse :=
  {| status := 200; body := b |}.

(** The outermost [try { ... } catch (error) { ... }] of a handler: the
    catch block logs and answers, it does not throw. *)
Definition handle {A} (m : io A) (h : string -> list event * A)
    : list event * A :=
  match m with
  | (t, inl e) => let (t', a) := h e in ((t ++ t')%list, a)
  | (t, inr a) => (t, a)
  end.

(** The string of a field that a test has found truthy. *)
Definition str (v : option string) : string :=
  match v with Some s => s | None => "" end.

Definition escalation : string :=
  "I don't have that information — would you like me to escalate to an admin?".

Definition setup_answer : string :=
  "I'm the RAK Porcelain AI Assistant! I'm currently being set up. Please configure your Supabase database and OpenAI API key to enable full functionality.".

(** The prompt used when [system_prompt.md] cannot be read. *)
Definition fallback_prompt_chat_js : string :=
  "You are RAK Porcelain Assistant. Only use information contained in the context field passed to you. Do not use any external knowledge. Always include provenance (product id, source type, and source id). If the context does not provide an answer, respond: "
  ++ dquote ++ escalation ++ dquote ++ " Keep answers concise and helpful.".

Definition fallback_prompt_server : string :=
  "You are RAK Porcelain Assistant. Only use information contained in the context field passed to you. Do not use any other knowledge. Cite the product id(s) and source when you reference facts. If the context does not provide an answer, respond: "
  ++ dquote ++ escalation ++ dquote ++ " Keep answers concise and helpful.".

Definition user_messages (contextText message : string) : list ChatMessage :=
  [ {| role := "user";
       content := "Context:" ++ nl ++ contextText ++ nl ++ nl ++
                  "User question: " ++ message |} ].

Definition internal_error : HttpResponse :=
  {| status := 500;
     body := BodyError "Internal server error"
               (Some "Failed to process chat request") |}.

Definition cite_source (doc : RetrievedDocument) : ProvenanceItem :=
  ProvSource (product_id doc) (source_type doc) (source_id doc)
    (similarity doc).

(** [doc.text_snippet.substring(0, 100) + '...']. *)
Definition cite_snippet (doc : RetrievedDocument) : ProvenanceItem :=
  ProvSnippet (product_id doc) (source_type doc)
    (substring 0 100 (text_snippet doc) ++ "...") (similarity doc).

Section Handlers.
Variable w : World.

Local Open Scope io_scope.

(** [routes/chat.js], [router.post('/api/chat', ...)]. *)
Definition chat_js_system_prompt : string :=
  match system_prompt_file w with
  | Some s => s
  | None => fallback_prompt_chat_js
  end.

Definition chat_js_post_chat (req : ChatRequest)
    : list event * HttpResponse :=
  handle
    (if negb (truthy (message req)) then
       ret {| status := 400;
              body := BodyError "Message is required and must be a string"
                        None |}
     else if negb (truthy (sessionId req)) then
       ret {| status := 400;
              body := BodyError
                        "Session ID is required and must be a string"
                        None |}
     else
       docs <- retrieveRelevantDocs w (str (message req)) 5 ;;
       if Nat.eqb (List.length docs) 0 then
         ret (json (BodyAnswer escalation [] RdEmptyArray))
       else
         let contextText := buildContextText docs in
         answer <- chatCompletion w chat_js_system_prompt
                     (user_messages contextText (str (message req))) ;;
         try_catch
           (saveConversation w
              {| session_id := str (sessionId req);
                 user_message := str (message req);
                 assistant_key := "assistant_response";
                 assistant_text := answer;
                 docs_key := "retrieved_docs";
                 docs := StoredRefs (map cite_source docs) |})
           (fun dbError => emit (LogError "Error saving conversation:")) ;;;
         ret (json (BodyAnswer answer (map cite_source docs)
                      (RdCount (List.length docs)))))
    (fun e => ([LogError "Chat error:"], internal_error)).

(** [server-fixed.ts], [app.post('/api/chat', ...)]. *)
Definition server_system_prompt : string :=
  match system_prompt_file w with
  | Some s => s
  | None => fallback_prompt_server
  end.

Definition env_configured : bool :=
  env_openai_api_key w && env_supabase_url w.

Definition server_fixed_post_chat (req : ChatRequest)
    : list event * HttpResponse :=
  handle
    (if negb (truthy (message req)) then
       ret {| status := 400; body := BodyError "Message is required" None |}
     else if negb env_configured then
       ret (json (BodyAnswer setup_answer [] (RdCount 0)))
     else
       docs <- retrieveRelevantDocs w (str (message req)) 5 ;;
       let contextText := buildContextText docs in
       answer <- chatCompletion w server_system_prompt
                   (user_messages contextText (str (message req))) ;;
       (if truthy (sessionId req) then
          saveConversation w
            {| session_id := str (sessionId req);
               user_message := str (message req);
               assistant_key := "assistant_message";
               assistant_text := answer;
               docs_key := "provenance";
               docs := StoredDocs docs |}
        else ret tt) ;;;
       ret (json (BodyAnswer answer (map cite_snippet docs)
                    (RdCount (List.length docs)))))
    (fun e => ([LogError "Chat error:"], internal_error)).

(** [simple-chat.ts]: its own [getEmbedding] and [chatCompletion], which
    log and throw the error again, and the handler. *)
Definition simple_getEmbedding (text : string) : io (list Q) :=
  try_catch
    (match embeddings_api w text with
     | Some v => emit (CallEmbedding text true) ;;; ret v
     | None => emit (CallEmbedding text false) ;;;
               throw "OpenAI API error"
     end)
    (fun e => emit (LogError "Error generating embedding:") ;;; throw e).

Definition simple_chatCompletion (systemPrompt : string)
    (messages : list ChatMessage) : io string :=
  try_catch
    (match chat_completions_api w systemPrompt messages with
     | Some c => emit (CallGeneration true) ;;;
                 ret (match c with Some s => s | None => "" end)
     | None => emit (CallGeneration false) ;;;
               throw "OpenAI API error"
     end)
    (fun e => emit (LogError "Error in chat completion:") ;;; throw e).

Definition simple_chat_post_chat (req : ChatRequest)
    : list event * HttpResponse :=
  handle
    (if negb (truthy (message req)) then
       ret {| status := 400; body := BodyError "Message is required" None |}
     else if negb env_configured then
       ret (json (BodyAnswer setup_answer [] (RdCount 0)))
     else
       queryEmbedding <- simple_getEmbedding (str (message req)) ;;
       let r := match_embeddings w queryEmbedding 5 in
       match error r with
       | Some msg => emit (CallVectorSearch 5 false) ;;;
                     throw ("Retrieval error: " ++ msg)
       | None =>
           emit (CallVectorSearch 5 true) ;;;
           match data r with
           | None =>
               (* [docs.length] on [null] *)
               throw "Cannot read properties of null (reading 'length')"
           | Some docs =>
               let contextText := simple_chat_context docs in
               answer <- simple_chatCompletion server_system_prompt
                           (user_messages contextText
                              (str (message req))) ;;
               (if truthy (sessionId req) then
                  (* the answer of the insert is not looked at *)
                  match conversations_insert w
                          {| session_id := str (sessionId req);
                             user_message := str (message req);
                             assistant_key := "assistant_response";
                             assistant_text := answer;
                             docs_key := "retrieved_docs";
                             docs := StoredDocs docs |} with
                  | None => emit (CallPersist true)
                  | Some _ => emit (CallPersist false)
                  end
                else ret tt) ;;;
               ret (json (BodyAnswer answer (map cite_snippet docs)
                            (RdCount (List.length docs))))
           end
       end)
    (fun e => ([LogError "Chat error:"], internal_error)).

End Handlers.

(** ** [routes/messages.ts] *)

Module Messages.

(** The two tables the router reads and writes.  The store gives a new
    row its [id] and its [created_at]; [next_id] and [clock] stand for
    these column defaults. *)
Record ConversationRow : Type := {
  conv_id : string;
  user_id : string
}.

Record MessageRow : Type := {
  id : nat;
  conversation_id : string;
  role : string;
  content : string;
  created_at : nat
}.

Record Db : Type := {
  conversations : list ConversationRow;
  messages : list MessageRow;
  next_id : nat;
  clock : nat
}.

(** [req.user?.id] and the body of [POST /]; each is a string or is
    absent. *)
Record SendRequest : Type := {
  userId : option string;
  conversationId : option string;
  body_role : option string;
  body_content : option string
}.

Record MessageView : Type := {
  view_id : nat;
  view_role : string;
  view_content : string;
  timestamp : nat
}.

Inductive Body : Type :=
| ErrorBody (err : string)
| SentBody (note : string) (sent : MessageView)
| ListBody (listed : list MessageView).

Record Response : Type := {
  status : nat;
  body : Body
}.

Definition view (row : MessageRow) : MessageView :=
  {| view_id := id row;
     view_role := role row;
     view_content := content row;
     timestamp := created_at row |}.

(** [.single()]: the row when exactly one matches, [null] otherwise. *)
Definition single {A} (rows : list A) : option A :=
  match rows with
  | [r] => Some r
  | _ => None
  end.

(** [from('conversations').select('id').eq('id', c).eq('user_id', u)]. *)
Definition conversationCheck (db : Db) (c u : string)
    : option ConversationRow :=
  single
    (filter (fun r => String.eqb (conv_id r) c && String.eqb (user_id r) u)
       (conversations db)).

(** [.order('created_at', { ascending: true })], as a stable insertion
    sort. *)
Fixpoint insert_by_time (x : MessageRow) (l : list MessageRow)
    : list MessageRow :=
  match l with
  | [] => [x]
  | y :: l' =>
      if Nat.leb (created_at x) (created_at y)
      then x :: y :: l'
      else y :: insert_by_time x l'
  end.

Definition order_by_created_at (l : list MessageRow) : list MessageRow :=
  fold_right insert_by_time [] l.

Definition valid_roles : list string := ["user"; "assistant"; "system"].

(** [router.get('/conversation/:conversationId', ...)].  [select_error] is
    the [error] the store answers the select with, if any. *)
Definition get_conversation (db : Db) (select_error : option string)
    (user : option string) (conversationIdParam : string) : Response :=
  if negb (truthy user) then
    {| status := 401; body := ErrorBody "Unauthorized" |}
  else
    match conversationCheck db conversationIdParam (str user) with
    | None => {| status := 404; body := ErrorBody "Conversation not found" |}
    | Some _ =>
        match select_error with
        | Some _ =>
            {| status := 500; body := ErrorBody "Internal server error" |}
        | None =>
            {| status := 200;
               body := ListBody
                 (map view
                    (order_by_created_at
                       (filter
                          (fun m => String.eqb (conversation_id m)
                                      conversationIdParam)
                          (messages db)))) |}
        end
    end.

(** [router.post('/', ...)].  [insert_error] is the [error] the store
    answers the insert with, if any. *)
Definition post_message (db : Db) (insert_error : option string)
    (req : SendRequest) : Response * Db :=
  if negb (truthy (userId req)) then
    ({| status := 401; body := ErrorBody "Unauthorized" |}, db)
  else if negb (truthy (conversationId req))
          || negb (truthy (body_role req))
          || negb (truthy (body_content req)) then
    ({| status := 400;
        body := ErrorBody
                  "Conversation ID, role, and content are required" |}, db)
  else if negb (includes valid_roles (str (body_role req))) then
    ({| status := 400;
        body := ErrorBody
                  "Invalid role. Must be user, assistant, or system" |}, db)
  else
    match conversationCheck db (str (conversationId req))
            (str (userId req)) with
    | None =>
        ({| status := 404; body := ErrorBody "Conversation not found" |},
         db)
    | Some _ =>
        match insert_error with
        | Some _ =>
            ({| status := 500; body := ErrorBody "Internal server error" |},
             db)
        | None =>
            let row := {| id := next_id db;
                          conversation_id := str (conversationId req);
                          role := str (body_role req);
                          content := str (body_content req);
                          created_at := clock db |} in
            ({| status := 201;
                body := SentBody "Message sent successfully" (view row) |},
             {| conversations := conversations db;
                messages := (messages db ++ [row])%list;
                next_id := S (next_id db);
                clock := S (clock db) |})
        end
    end.

End Messages.

(** ** The ingestion script: [chunkText] *)

Module Ingest.

(** A text is its sequence of UTF-16 code units. *)
Definition unit16 : Type := N.
Definition text : Type := list unit16.

Definition space : unit16 := 32%N.
Definition is_space (c : unit16) : bool := N.eqb c space.

(** White space and line terminators, what [String.prototype.trim]
    removes. *)
Definition is_ws (c : unit16) : bool :=
  (N.leb 9 c && N.leb c 13) || N.eqb c 32 || N.eqb c 160
  || N.eqb c 5760 || (N.leb 8192 c && N.leb c 8202)
  || N.eqb c 8232 || N.eqb c 8233 || N.eqb c 8239 || N.eqb c 8287
  || N.eqb c 12288 || N.eqb c 65279.

(** [s.split(sep)] for a separator of one unit, by the test [p] of that
    unit: the pieces between the separators, the empty ones too. *)
Fixpoint split_by (p : unit16 -> bool) (s : text) : list text :=
  match s with
  | [] => [[]]
  | c :: s' =>
      if p c then [] :: split_by p s'
      else match split_by p s' with
           | [] => [[c]]
           | piece :: pieces => (c :: piece) :: pieces
           end
  end.

(** [pieces.join(' ')]. *)
Fixpoint join_space (pieces : list text) : text :=
  match pieces with
  | [] => []
  | [piece] => piece
  | piece :: rest => (piece ++ space :: join_space rest)%list
  end.

Fixpoint trim_start (s : text) : text :=
  match s with
  | [] => []
  | c :: s' => if is_ws c then trim_start s' else s
  end.

Fixpoint trim_end (s : text) : text :=
  match s with
  | [] => []
  | c :: s' =>
      match trim_end s' with
      | [] => if is_ws c then [] else [c]
      | kept => c :: kept
      end
  end.

Definition trim (s : text) : text := trim_end (trim_start s).

(** [Array.prototype.slice(start, end)] with its relative indices. *)
Definition slice_index (len k : Z) : Z :=
  if Z.ltb k 0 then Z.max (len + k) 0 else Z.min k len.

Definition slice {A} (l : list A) (start stop : Z) : list A :=
  let len := Z.of_nat (List.length l) in
  let from := slice_index len start in
  let to := slice_index len stop in
  firstn (Z.to_nat (Z.max (to - from) 0)) (skipn (Z.to_nat from) l).

(** The [for] loop of [chunkText], one turn per unit of fuel; [None] when
    the fuel runs out before the loop is left.  [chunkSize] and [overlap]
    are integers. *)
Fixpoint chunk_loop (fuel : nat) (words : list text)
    (chunkSize overlap : Z) (i : Z) (chunks : list text)
    : option (list text) :=
  if Z.ltb i (Z.of_nat (List.length words)) then
    match fuel with
    | O => None
    | S fuel' =>
        let chunk := join_space (slice words i (i + chunkSize)) in
        let chunks' :=
          if Nat.ltb 0 (List.length (trim chunk))
          then (chunks ++ [trim chunk])%list
          else chunks in
        chunk_loop fuel' words chunkSize overlap
          (i + (chunkSize - overlap)) chunks'
    end
  else Some chunks.

Definition chunkText (fuel : nat) (t : text) (chunkSize overlap : Z)
    : option (list text) :=
  chunk_loop fuel (split_by is_space t) chunkSize overlap 0 [].

(** The words of a text in the reading "separated by white space": the
    non-empty pieces between white-space units. *)
Definition is_empty (s : text) : bool :=
  match s with [] => true | _ => false end.

Definition ws_words (s : text) : list text :=
  filter (fun piece => negb (is_empty piece)) (split_by is_ws s).

(** The chunk that the turn at index [k] makes, before the test that drops
    an empty one. *)
Definition chunk_at (words : list text) (chunkSize k : Z) : text :=
  trim (join_space (slice words k (k + chunkSize))).

(** How many units of [s] pass the test [p]. *)
Definition count (p : unit16 -> bool) (s : text) : nat :=
  List.length (filter p s).

(** ASCII literals as texts, for the examples. *)
Definition of_string (s : string) : text :=
  map N_of_ascii (list_ascii_of_string s).

End Ingest.

(** ** Observations on traces *)

Definition is_embedding_call (e : event) : bool :=
  match e with CallEmbedding _ _ => true | _ => false end.

Definition is_vector_search_call (e : event) : bool :=
  match e with CallVectorSearch _ _ => true | _ => false end.

Definition is_generation_call (e : event) : bool :=
  match e with CallGeneration _ => true | _ => false end.

Definition is_persist_call (e : event) : bool :=
  match e with CallPersist _ => true | _ => false end.

Definition count_calls (p : event -> bool) (t : list event) : nat :=
  List.length (filter p t).

(** A failed call to the embedding API, the vector search or the chat
    completion. *)
Definition failed_dependency (e : event) : bool :=
  match e with
  | CallEmbedding _ false => true
  | CallVectorSearch _ false => true
  | CallGeneration false => true
  | _ => false
  end.

Definition failed_persist (e : event) : bool :=
  match e with CallPersist false => true | _ => false end.

Definition is_log (label : string) (e : event) : bool :=
  match e with LogError l => String.eqb l label | _ => false end.

(** The catch-all answer of the chat handlers. *)
Definition generic_failure (r : HttpResponse) : Prop :=
  status r = 500%nat /\
  body r = BodyError "Internal server error"
             (Some "Failed to process chat request").

(** At most one call of each kind. *)
Definition single_shot (t : list event) : Prop :=
  (count_calls is_embedding_call t <= 1)%nat /\
  (count_calls is_vector_search_call t <= 1)%nat /\
  (count_calls is_generation_call t <= 1)%nat /\
  (count_calls is_persist_call t <= 1)%nat.

(** The same services with another answer of the [conversations] insert. *)
Definition with_insert (w : World) (f : ConversationData -> option string)
    : World :=
  {| env_openai_api_key := env_openai_api_key w;
     env_supabase_url := env_supabase_url w;
     system_prompt_file := system_prompt_file w;
     embeddings_api := embeddings_api w;
     match_embeddings := match_embeddings w;
     chat_completions_api := chat_completions_api w;
     conversations_insert := f |}.

(** ** The context block in the words of the specification *)

(** The literal tag [[Product: <id>, Source: <type>, ID: <id>]]. *)
Definition spec_provenance_tag (doc : RetrievedDocument) : string :=
  "[Product: " ++ product_id doc ++ ", Source: " ++ source_type doc ++
  ", ID: " ++ str (source_id doc) ++ "]".

(** The tag with its [ID] part only for a document that has a source id. *)
Definition optional_id_tag (doc : RetrievedDocument) : string :=
  match source_id doc with
  | Some (String c s) =>
      "[Product: " ++ product_id doc ++ ", Source: " ++ source_type doc ++
      ", ID: " ++ String c s ++ "]"
  | _ => "[Product: " ++ product_id doc ++ ", Source: " ++ source_type doc ++ "]"
  end.

(** Each document as its tag, a line feed and its snippet; an empty line
    between two documents. *)
Fixpoint spec_context_text (tag : RetrievedDocument -> string)
    (docs : list RetrievedDocument) : string :=
  match docs with
  | [] => ""
  | [doc] => tag doc ++ nl ++ text_snippet doc
  | doc :: rest =>
      tag doc ++ nl ++ text_snippet doc ++ nl ++ nl ++
      spec_context_text tag rest
  end.

(** ** The ranking of [searchProducts], for the statements *)

(** The documents of one product, in the order retrieved. *)
Definition docs_of_product (pid : string) (docs : list RetrievedDocument)
    : list RetrievedDocument :=
  filter (fun d => String.eqb (product_id d) pid) docs.

(** [m] is the largest of the scores of [snippets]. *)
Definition is_max_similarity (m : Q) (snippets : list Snippet) : Prop :=
  In m (map snippet_similarity snippets) /\
  Forall (fun s => snippet_similarity s <= m) snippets.

(** [a] may stand before [b]: its score is not smaller. *)
Definition ranked_before (a b : ProductHit) : Prop :=
  max_similarity b <= max_similarity a.

(** What the loop keeps true of the map after the documents [seen]. *)
Definition entry_ok (seen : list RetrievedDocument)
    (kv : string * ProductHit) : Prop :=
  hit_product_id (snd kv) = fst kv /\
  relevant_snippets (snd kv) = map snippet_of (docs_of_product (fst kv) seen) /\
  is_max_similarity (max_similarity (snd kv)) (relevant_snippets (snd kv)).

Definition grouped (m : ProductMap) (seen : list RetrievedDocument) : Prop :=
  NoDup (map fst m) /\
  Forall (entry_ok seen) m /\
  forall d, In d seen -> In (product_id d) (map fst m).

(** ** Sample data *)

Definition dinner_query : string := "Tell me about your dinner sets".

Definition dinner_set : RetrievedDocument :=
  {| product_id := "prod-dinner-01";
     source_type := "description";
     source_id := None;
     text_snippet := "Classic Gourmet dinner set, 24 pieces, white porcelain.";
     similarity := 87 # 100;
     metadata := "{}" |}.

Definition dinner_faq : RetrievedDocument :=
  {| product_id := "prod-dinner-02";
     source_type := "faq";
     source_id := Some "faq_0";
     text_snippet := "Q: Is it dishwasher safe? A: Yes.";
     similarity := 91 # 100;
     metadata := "{}" |}.

Definition dinner_spec : RetrievedDocument :=
  {| product_id := "prod-dinner-01";
     source_type := "spec";
     source_id := Some "spec_2";
     text_snippet := "Plate diameter 27 cm.";
     similarity := 93 # 100;
     metadata := "{}" |}.

Definition dinner_request : ChatRequest :=
  {| message := Some dinner_query; sessionId := Some "session-1" |}.

(** All services answer; the search finds two documents. *)
Definition world_ok : World :=
  {| env_openai_api_key := true;
     env_supabase_url := true;
     system_prompt_file := None;
     embeddings_api := fun _ => Some [1 # 2; 1 # 3];
     match_embeddings := fun _ _ =>
       {| data := Some [dinner_faq; dinner_set]; error := None |};
     chat_completions_api := fun _ _ =>
       Some (Some "Our Classic Gourmet dinner set has 24 pieces.");
     conversations_insert := fun _ => None |}.

(** The insert into [conversations] fails. *)
Definition world_store_down : World :=
  with_insert world_ok (fun _ => Some "connection refused").

(** The search finds nothing. *)
Definition world_no_docs : World :=
  {| env_openai_api_key := true;
     env_supabase_url := true;
     system_prompt_file := None;
     embeddings_api := fun _ => Some [1 # 2; 1 # 3];
     match_embeddings := fun _ _ => {| data := Some []; error := None |};
     chat_completions_api := fun _ _ =>
       Some (Some "We have many fine dinner sets.");
     conversations_insert := fun _ => None |}.

(** The chat-completion API fails. *)
Definition world_generation_down : World :=
  {| env_openai_api_key := true;
     env_supabase_url := true;
     system_prompt_file := None;
     embeddings_api := fun _ => Some [1 # 2; 1 # 3];
     match_embeddings := fun _ _ =>
       {| data := Some [dinner_faq; dinner_set]; error := None |};
     chat_completions_api := fun _ _ => None;
     conversations_insert := fun _ => None |}.

Definition sample_db : Messages.Db :=
  {| Messages.conversations :=
       [ {| Messages.conv_id := "conv-1"; Messages.user_id := "alice" |};
         {| Messages.conv_id := "conv-2"; Messages.user_id := "bob" |} ];
     Messages.messages :=
       [ {| Messages.id := 0; Messages.conversation_id := "conv-1";
            Messages.role := "user"; Messages.content := "Hello";
            Messages.created_at := 3 |} ];
     Messages.next_id := 1;
     Messages.clock := 4 |}.

Definition sample_send : Messages.SendRequest :=
  {| Messages.userId := Some "alice";
     Messages.conversationId := Some "conv-1";
     Messages.body_role := Some "assistant";
     Messages.body_content := Some "Welcome to RAK Porcelain." |}.

(** A body that lacks a required field of a message: a role outside
    [user], [assistant], [system], or an empty content. *)
Definition lacks_required_fields (req : Messages.SendRequest) : bool :=
  negb (includes Messages.valid_roles (str (Messages.body_role req)))
  || negb (truthy (Messages.body_content req)).

(** The request of [sample_send] with the role [admin] and no user. *)
Definition anonymous_admin_send : Messages.SendRequest :=
  {| Messages.userId := None;
     Messages.conversationId := Some "conv-1";
     Messages.body_role := Some "admin";
     Messages.body_content := Some "Welcome to RAK Porcelain." |}.

Definition admin_send : Messages.SendRequest :=
  {| Messages.userId := Some "alice";
     Messages.conversationId := Some "conv-1";
     Messages.body_role := Some "admin";
     Messages.body_content := Some "Welcome to RAK Porcelain." |}.

(** ** [chunkText] in the words of the claim, for a reading of "word" *)

(** With [words_of] the words of a text: whenever the loop is left, every
    chunk has at most [chunkSize] words and every word of the text is a word
    of some chunk. *)
Definition chunk_contract (words_of : Ingest.text -> list Ingest.text)
    : Prop :=
  forall (t : Ingest.text) (chunkSize overlap : Z),
    (0 <= overlap < chunkSize)%Z ->
    exists chunks,
      (exists fuel, Ingest.chunkText fuel t chunkSize overlap = Some chunks) /\
      (forall c, In c chunks ->
                 (Z.of_nat (List.length (words_of c)) <= chunkSize)%Z) /\
      (forall word, In word (words_of t) ->
                    exists c, In c chunks /\ In word (words_of c)).

(* ===================================================================== *)
(** * Part I, continued. The rest of the cited files                      *)
(* ===================================================================== *)

(** ** [retrieval.ts]: threshold, validation, documents of a product *)

(** [retrieveRelevantDocsWithThreshold]: [doc.similarity >= minSimilarity]
    on what [retrieveRelevantDocs] returns. *)
Definition retrieveRelevantDocsWithThreshold (w : World) (query : string)
    (topK : Z) (minSimilarity : Q) : io (list RetrievedDocument) :=
  try_catch
    (bind (retrieveRelevantDocs w query topK)
       (fun docs =>
          ret (filter (fun doc => Qle_bool minSimilarity (similarity doc))
                 docs)))
    (fun e => bind (emit (LogError "Error retrieving docs with threshold:"))
                (fun _ => throw e)).

(** [validateRetrieval]. *)
Definition validateRetrieval (w : World) : io bool :=
  try_catch
    (bind (retrieveRelevantDocs w "test query" 1) (fun _ => ret true))
    (fun e => bind (emit (LogError "Retrieval validation failed:"))
                (fun _ => ret false)).

(** [validateApiKey] of [openaiClient.ts]. *)
Definition validateApiKey (w : World) : io bool :=
  try_catch
    (bind (getEmbedding w "test") (fun _ => ret true))
    (fun e => bind (emit (LogError "OpenAI API key validation failed:"))
                (fun _ => ret false)).






(** [retrieveDocsByProduct], over the rows of the [embeddings] table. *)
Module ProductDocs.

Record EmbeddingRow : Type := {
  row_product_id : string;
  row_source_type : string;
  row_source_id : option string;
  row_text_snippet : string;
  row_metadata : string;
  row_created_at : nat
}.

(** [.order('created_at', { ascending: false })], as a stable insertion
    sort. *)
Fixpoint insert_newest (x : EmbeddingRow) (l : list EmbeddingRow)
    : list EmbeddingRow :=
  match l with
  | [] => [x]
  | y :: l' =>
      if Nat.leb (row_created_at y) (row_created_at x)
      then x :: y :: l'
      else y :: insert_newest x l'
  end.

Definition newest_first (l : list EmbeddingRow) : list EmbeddingRow :=
  fold_right insert_newest [] l.

(** The query the function builds: the product, then the source type when
    the argument is truthy. *)
Definition product_rows (table : list EmbeddingRow) (productId : string)
    (sourceType : option string) : list EmbeddingRow :=
  let by_product :=
    filter (fun r => String.eqb (row_product_id r) productId) table in
  if truthy sourceType
  then filter (fun r => String.eqb (row_source_type r) (str sourceType))
         by_product
  else by_product.

Definition as_document (r : EmbeddingRow) : RetrievedDocument :=
  {| product_id := row_product_id r;
     source_type := row_source_type r;
     source_id := row_source_id r;
     text_snippet := row_text_snippet r;
     similarity := 1;
     metadata := row_metadata r |}.

(** [select_error] is the [error] the store answers the query with, if
    any. *)
Definition retrieveDocsByProduct (table : list EmbeddingRow)
    (select_error : option string) (productId : string)
    (sourceType : option string) : io (list RetrievedDocument) :=
  try_catch
    (match select_error with
     | Some msg => throw ("Failed to retrieve docs by product: " ++ msg)
     | None =>
         ret (map as_document
                (newest_first (product_rows table productId sourceType)))
     end)
    (fun e => bind (emit (LogError "Error retrieving docs by product:"))
                (fun _ => throw e)).

End ProductDocs.

(** ** [routes/messages.ts]: update and delete *)

Module MessageEdits.
Import Messages.

(** [req.user?.id], [req.params.id] and the body of [PUT /:id]. *)
Record UpdateRequest : Type := {
  update_user : option string;
  update_id : nat;
  update_content : option string
}.

(** The answer of [DELETE /:id]: [{ error }] or [{ message }]. *)
Inductive DeleteBody : Type :=
| DeleteError (err : string)
| Deleted (note : string).

Record DeleteResponse : Type := {
  delete_status : nat;
  delete_body : DeleteBody
}.

(** The conversation of a message is owned by the user [u]: the inner join
    [conversations!inner(user_id)] with [.eq('conversations.user_id', u)]. *)
Definition owned_by (db : Db) (u : string) (m : MessageRow) : bool :=
  existsb
    (fun c => String.eqb (conv_id c) (conversation_id m)
              && String.eqb (user_id c) u)
    (conversations db).

(** [from('messages').select(...).eq('id', messageId)
      .eq('conversations.user_id', userId).single()]. *)
Definition messageCheck (db : Db) (messageId : nat) (u : string)
    : option MessageRow :=
  single
    (filter (fun m => Nat.eqb (id m) messageId && owned_by db u m)
       (messages db)).

Definition set_content (c : string) (m : MessageRow) : MessageRow :=
  {| id := id m;
     conversation_id := conversation_id m;
     role := role m;
     content := c;
     created_at := created_at m |}.

(** [.update({ content }).eq('id', messageId).select(...).single()]: one
    request to the store, which changes the row with that id and answers
    with the changed row.  When the rows with that id are not exactly one,
    [.single()] makes the store answer with an error, taken here to change
    nothing; with distinct ids this does not arise after [messageCheck]. *)
Definition update_content_of (db : Db) (messageId : nat) (c : string)
    : option (MessageRow * Db) :=
  match single (filter (fun m => Nat.eqb (id m) messageId) (messages db)) with
  | None => None
  | Some m =>
      Some (set_content c m,
            {| conversations := conversations db;
               messages :=
                 map (fun m' => if Nat.eqb (id m') messageId
                                then set_content c m' else m')
                   (messages db);
               next_id := next_id db;
               clock := clock db |})
  end.

(** [router.put('/:id', ...)].  [update_error] is an [error] of the store
    itself, if any. *)
Definition put_message (db : Db) (update_error : option string)
    (req : UpdateRequest) : Response * Db :=
  if negb (truthy (update_user req)) then
    ({| status := 401; body := ErrorBody "Unauthorized" |}, db)
  else if negb (truthy (update_content req)) then
    ({| status := 400; body := ErrorBody "Content is required" |}, db)
  else
    match messageCheck db (update_id req) (str (update_user req)) with
    | None =>
        ({| status := 404; body := ErrorBody "Message not found" |}, db)
    | Some _ =>
        match update_error with
        | Some _ =>
            ({| status := 500; body := ErrorBody "Internal server error" |},
             db)
        | None =>
            match update_content_of db (update_id req)
                    (str (update_content req)) with
            | None =>
                ({| status := 500;
                    body := ErrorBody "Internal server error" |}, db)
            | Some (row, db') =>
                ({| status := 200;
                    body := SentBody "Message updated successfully"
                              (view row) |}, db')
            end
        end
    end.

(** [router.delete('/:id', ...)].  [delete_error] is the [error] the store
    answers the delete with, if any. *)
Definition delete_message (db : Db) (delete_error : option string)
    (user : option string) (messageId : nat) : DeleteResponse * Db :=
  if negb (truthy user) then
    ({| delete_status := 401; delete_body := DeleteError "Unauthorized" |},
     db)
  else
    match messageCheck db messageId (str user) with
    | None =>
        ({| delete_status := 404;
            delete_body := DeleteError "Message not found" |}, db)
    | Some _ =>
        match delete_error with
        | Some _ =>
            ({| delete_status := 500;
                delete_body := DeleteError "Internal server error" |}, db)
        | None =>
            ({| delete_status := 200;
                delete_body := Deleted "Message deleted successfully" |},
             {| conversations := conversations db;
                messages :=
                  filter (fun m => negb (Nat.eqb (id m) messageId))
                    (messages db);
                next_id := next_id db;
                clock := clock db |})
        end
    end.

(** The messages listed in a [ListBody]; none in another body. *)
Definition listed_of (r : Response) : list MessageView :=
  match body r with
  | ListBody l => l
  | _ => []
  end.

End MessageEdits.

(** ** [openaiClient.ts]: the reading loop of [chatCompletionStream] *)

Module Stream.
Import Ingest.
Local Open Scope list_scope.

Definition newline : unit16 := 10%N.
Definition is_newline (c : unit16) : bool := N.eqb c newline.

Definition data_prefix : text := of_string "data: ".
Definition done_marker : text := of_string "[DONE]".

Fixpoint text_eqb (a b : text) : bool :=
  match a, b with
  | [], [] => true
  | x :: a', y :: b' => N.eqb x y && text_eqb a' b'
  | _, _ => false
  end.

(** [line.startsWith(prefix)]. *)
Fixpoint starts_with (prefix line : text) : bool :=
  match prefix, line with
  | [], _ => true
  | x :: prefix', y :: line' => N.eqb x y && starts_with prefix' line'
  | _ :: _, [] => false
  end.

Section Reader.

(** What [JSON.parse(data).choices?.[0]?.delta?.content] gives when it is
    truthy; [None] when the parse throws or the content is absent or empty
    (both are passed over in silence by the source). *)
Variable delta_content : text -> option text.

(** [for (const line of lines) { ... }]: the contents handed to [onChunk],
    and whether [[DONE]] was met, at which the function returns. *)
Fixpoint read_lines (lines : list text) : list text * bool :=
  match lines with
  | [] => ([], false)
  | line :: rest =>
      if starts_with data_prefix line then
        let payload := skipn 6 line in
        if text_eqb payload done_marker then ([], true)
        else
          let (out, finished) := read_lines rest in
          (match delta_content payload with
           | Some c => c :: out
           | None => out
           end, finished)
      else read_lines rest
  end.

(** [while (true) { ... }] over the values that [reader.read()] delivers
    before [done], each already decoded: the contents handed to [onChunk],
    in order.  A read that fails is not part of this model. *)
Fixpoint stream_loop (reads : list text) (buffer : text) : list text :=
  match reads with
  | [] => []
  | value :: rest =>
      let lines := split_by is_newline (buffer ++ value) in
      let out := read_lines (removelast lines) in
      if snd out then fst out
      else fst out ++ stream_loop rest (last lines [])
  end.

End Reader.

(** Lines, each followed by a line feed. *)
Definition terminated (lines : list text) : text :=
  concat (map (fun line => line ++ [newline]) lines).

End Stream.

(** ** The ingestion script: the batches of [processProduct] *)

Module Batches.
Import Ingest.
Local Open Scope list_scope.

Record Metadata : Type := {
  meta_product_id : string;
  meta_source_type : string;
  meta_source_id : option string;
  chunk_index : nat;
  meta_more : list (string * string)
}.

Record Chunk : Type := {
  chunk_text : text;
  chunk_metadata : Metadata
}.

Record EmbeddingRecord : Type := {
  record_product_id : string;
  record_source_type : string;
  record_source_id : option string;
  record_text_snippet : text;
  embedding : option (list Q);
  record_metadata : Metadata
}.

Inductive batch_event : Type :=
| EmbedBatch (texts : list text) (ok : bool)
| InsertBatch (records : list EmbeddingRecord) (ok : bool)
| BatchFailed.

Definition batchSize : Z := 10.

(** [batch.map((chunk, index) => ({ ... embedding: embeddings[index] ... }))]. *)
Fixpoint to_records (batch : list Chunk) (embeddings : list (list Q))
    : list EmbeddingRecord :=
  match batch with
  | [] => []
  | chunk :: batch' =>
      {| record_product_id := meta_product_id (chunk_metadata chunk);
         record_source_type := meta_source_type (chunk_metadata chunk);
         record_source_id := meta_source_id (chunk_metadata chunk);
         record_text_snippet := chunk_text chunk;
         embedding := hd_error embeddings;
         record_metadata := chunk_metadata chunk |}
      :: to_records batch' (tl embeddings)
  end.

Section Loop.

(** [getEmbeddings(texts)], [None] when it throws (the text of its error is
    not kept), and the insert into [embeddings], which answers with
    [Some message] when it fails. *)
Variable embeddings_batch_api : list text -> option (list (list Q)).
Variable embeddings_insert : list EmbeddingRecord -> option string.

(** The [for] loop over the batches, one turn per unit of fuel: the calls
    made and whether the loop was left or an error was thrown; [None] when
    the fuel runs out. *)
Fixpoint batch_loop (fuel : nat) (chunks : list Chunk) (i : Z)
    : option (list batch_event * (string + unit)) :=
  if Z.ltb i (Z.of_nat (List.length chunks)) then
    match fuel with
    | O => None
    | S fuel' =>
        let batch := slice chunks i (i + batchSize) in
        let texts := map chunk_text batch in
        match embeddings_batch_api texts with
        | None =>
            Some ([EmbedBatch texts false; BatchFailed],
                  inl "Failed to get embeddings")
        | Some embeddings =>
            let embeddingRecords := to_records batch embeddings in
            match embeddings_insert embeddingRecords with
            | Some msg =>
                Some ([EmbedBatch texts true;
                       InsertBatch embeddingRecords false; BatchFailed],
                      inl ("Failed to insert embeddings: " ++ msg)%string)
            | None =>
                match batch_loop fuel' chunks (i + batchSize) with
                | None => None
                | Some (events, outcome) =>
                    Some (EmbedBatch texts true
                            :: InsertBatch embeddingRecords true :: events,
                          outcome)
                end
            end
        end
    end
  else Some ([], inr tt).

End Loop.

(** The records that reached the table: those of the inserts that
    succeeded. *)
Fixpoint inserted (events : list batch_event) : list EmbeddingRecord :=
  match events with
  | [] => []
  | InsertBatch records true :: rest => records ++ inserted rest
  | _ :: rest => inserted rest
  end.

Fixpoint embed_calls (events : list batch_event) : list (list text) :=
  match events with
  | [] => []
  | EmbedBatch texts _ :: rest => texts :: embed_calls rest
  | _ :: rest => embed_calls rest
  end.

End Batches.

(** ** [chunkText] with parameters that are not integers *)

Module IngestNumbers.
Import Ingest.
Local Open Scope list_scope.

(** The parameters of [chunkText] have the type [number].  Here a number is
    an exact rational, which is what the arithmetic of the loop computes on
    integers and on halves, the values used below. *)

(** [ToIntegerOrInfinity], which [slice] applies to its two arguments: the
    fraction is cut off, towards zero. *)
Definition to_integer (q : Q) : Z := Z.quot (Qnum q) (Zpos (Qden q)).

(** [i < n]. *)
Definition Qltb (a b : Q) : bool := negb (Qle_bool b a).

(** The loop of [chunkText] as [chunk_loop] has it, on numbers. *)
Fixpoint chunk_loop_number (fuel : nat) (words : list text)
    (chunkSize overlap : Q) (i : Q) (chunks : list text)
    : option (list text) :=
  if Qltb i (inject_Z (Z.of_nat (List.length words))) then
    match fuel with
    | O => None
    | S fuel' =>
        let chunk :=
          join_space
            (slice words (to_integer i) (to_integer (i + chunkSize))) in
        let chunks' :=
          if Nat.ltb 0 (List.length (trim chunk))
          then chunks ++ [trim chunk]
          else chunks in
        chunk_loop_number fuel' words chunkSize overlap
          (i + (chunkSize - overlap)) chunks'
    end
  else Some chunks.

Definition chunkText_number (fuel : nat) (t : text) (chunkSize overlap : Q)
    : option (list text) :=
  chunk_loop_number fuel (split_by is_space t) chunkSize overlap 0 [].

End IngestNumbers.

(** ** More sample data and statement vocabulary *)

(** The embedding API fails. *)
Definition world_embedding_down : World :=
  {| env_openai_api_key := true;
     env_supabase_url := true;
     system_prompt_file := None;
     embeddings_api := fun _ => None;
     match_embeddings := match_embeddings world_ok;
     chat_completions_api := chat_completions_api world_ok;
     conversations_insert := fun _ => None |}.

(** The OpenAI key is not set. *)
Definition world_unconfigured : World :=
  {| env_openai_api_key := false;
     env_supabase_url := true;
     system_prompt_file := None;
     embeddings_api := embeddings_api world_ok;
     match_embeddings := match_embeddings world_ok;
     chat_completions_api := chat_completions_api world_ok;
     conversations_insert := fun _ => None |}.

(** A document with its source id taken away. *)
Definition without_source_id (doc : RetrievedDocument) : RetrievedDocument :=
  {| product_id := product_id doc;
     source_type := source_type doc;
     source_id := None;
     text_snippet := text_snippet doc;
     similarity := similarity doc;
     metadata := metadata doc |}.

(** The snippets of all the hits. *)
Definition all_snippets (hits : list ProductHit) : list Snippet :=
  flat_map relevant_snippets hits.

(** Twelve chunks of one product, an embedding API that answers with one
    vector per text, and a store that takes batches of ten only. *)
Definition sample_chunks : list Batches.Chunk :=
  map (fun n =>
         {| Batches.chunk_text := Ingest.of_string "white porcelain plate";
            Batches.chunk_metadata :=
              {| Batches.meta_product_id := "prod-dinner-01";
                 Batches.meta_source_type := "description";
                 Batches.meta_source_id := None;
                 Batches.chunk_index := n;
                 Batches.meta_more := [] |} |})
    (seq 0 12).

Definition sample_batch_api (texts : list Ingest.text)
    : option (list (list Q)) :=
  Some (map (fun _ => [1 # 2; 1 # 3]) texts).

Definition store_of_full_batches (records : list Batches.EmbeddingRecord)
    : option string :=
  if Nat.eqb (List.length records) 10 then None else Some "disk full".

(** The events of a run of the batch loop; none when the fuel ran out. *)
Definition events_of
    (run : option (list Batches.batch_event * (string + unit)))
    : list Batches.batch_event :=
  match run with
  | Some (events, _) => events
  | None => []
  end.

(** The stream reader with a parser that takes every payload as content. *)
Definition every_payload (payload : Ingest.text) : option Ingest.text :=
  Some payload.
(* ===================================================================== *)
(** * Part II. Properties                                                 *)
(* ===================================================================== *)

Local Open Scope list_scope.

(** ** The shapes of the external calls *)

Section CallShapes.
Variable w : World.

Lemma getEmbedding_cases (q : string) :
  (exists v, embeddings_api w q = Some v /\
             getEmbedding w q = ([CallEmbedding q true], inr v)) \/
  (embeddings_api w q = None /\
   exists e, getEmbedding w q =
     ([CallEmbedding q false; LogError "Error getting embedding:"], inl e)).
Proof.
  unfold getEmbedding.
  destruct (embeddings_api w q) as [v|]; cbn; [left | right]; eauto.
Qed.

Lemma retrieveRelevantDocs_cases (q : string) (k : Z) :
  (exists docs,
      retrieveRelevantDocs w q k =
        ([CallEmbedding q true; CallVectorSearch k true], inr docs)) \/
  (exists e,
      retrieveRelevantDocs w q k =
        ([CallEmbedding q false; LogError "Error getting embedding:";
          LogError "Error retrieving relevant docs:"], inl e)) \/
  (exists e,
      retrieveRelevantDocs w q k =
        ([CallEmbedding q true; CallVectorSearch k false;
          LogError "Error retrieving relevant docs:"], inl e)).
Proof.
  unfold retrieveRelevantDocs.
  destruct (getEmbedding_cases q) as [[v [_ ->]] | [_ [e ->]]].
  - cbn. destruct (error (match_embeddings w v k)); cbn; eauto.
  - cbn. eauto.
Qed.

Lemma chatCompletion_cases (p : string) (ms : list ChatMessage) :
  (exists a, chatCompletion w p ms = ([CallGeneration true], inr a)) \/
  (exists e, chatCompletion w p ms =
     ([CallGeneration false; LogError "Error getting chat completion:"],
      inl e)).
Proof.
  unfold chatCompletion.
  destruct (chat_completions_api w p ms); cbn; eauto.
Qed.

Lemma saveConversation_cases (c : ConversationData) :
  (conversations_insert w c = None /\
   saveConversation w c = ([CallPersist true], inr tt)) \/
  (exists e, conversations_insert w c = Some e /\ exists e',
     saveConversation w c =
       ([CallPersist false; LogError "Error saving conversation:"], inl e')).
Proof.
  unfold saveConversation.
  destruct (conversations_insert w c); cbn; eauto.
Qed.

Lemma simple_getEmbedding_cases (q : string) :
  (exists v, simple_getEmbedding w q = ([CallEmbedding q true], inr v)) \/
  (exists e, simple_getEmbedding w q =
     ([CallEmbedding q false; LogError "Error generating embedding:"],
      inl e)).
Proof.
  unfold simple_getEmbedding.
  destruct (embeddings_api w q); cbn; eauto.
Qed.

Lemma simple_chatCompletion_cases (p : string) (ms : list ChatMessage) :
  (exists a, simple_chatCompletion w p ms = ([CallGeneration true], inr a)) \/
  (exists e, simple_chatCompletion w p ms =
     ([CallGeneration false; LogError "Error in chat completion:"], inl e)).
Proof.
  unfold simple_chatCompletion.
  destruct (chat_completions_api w p ms); cbn; eauto.
Qed.
End CallShapes.


(** Case analysis on every call a handler makes and on every test it
    takes. *)
Ltac split_calls w :=
  repeat match goal with
  | |- context [retrieveRelevantDocs w ?q ?k] =>
      destruct (retrieveRelevantDocs_cases w q k)
        as [[? ->] | [[? ->] | [? ->]]]; cbn
  | |- context [chatCompletion w ?p ?ms] =>
      destruct (chatCompletion_cases w p ms) as [[? ->] | [? ->]]; cbn
  | |- context [saveConversation w ?c] =>
      destruct (saveConversation_cases w c) as [[_ ->] | [? [_ [? ->]]]]; cbn
  | |- context [simple_getEmbedding w ?q] =>
      destruct (simple_getEmbedding_cases w q) as [[? ->] | [? ->]]; cbn
  | |- context [simple_chatCompletion w ?p ?ms] =>
      destruct (simple_chatCompletion_cases w p ms) as [[? ->] | [? ->]]; cbn
  | |- context [if ?b then _ else _] => destruct b eqn:?; cbn
  | |- context [match error ?r with _ => _ end] => destruct (error r) eqn:?; cbn
  | |- context [match data ?r with _ => _ end] => destruct (data r) eqn:?; cbn
  | |- context [match conversations_insert w ?c with _ => _ end] =>
      destruct (conversations_insert w c) eqn:?; cbn
  end.

(** ** One call of each kind *)

(** Claim C7.  Whatever the services answer and whatever the request holds,
    one handling of [POST /api/chat] calls the embedding API at most once,
    the vector search at most once, the chat completion at most once and
    writes to the store at most once; this holds of the three handlers. *)
Theorem chat_handling_is_single_shot (w : World) (req : ChatRequest) :
  single_shot (fst (chat_js_post_chat w req)) /\
  single_shot (fst (server_fixed_post_chat w req)) /\
  single_shot (fst (simple_chat_post_chat w req)).
Proof.
  unfold chat_js_post_chat, server_fixed_post_chat, simple_chat_post_chat,
    single_shot, count_calls.
  repeat split; split_calls w; cbn; lia.
Qed.

(** ** A failing dependency *)

(** Claim C6.  When a call to the embedding API, to the vector search or to
    the chat completion fails while one of the three handlers serves a
    request, the answer is 500 with the fixed body
    [{ error: 'Internal server error', message: 'Failed to process chat
    request' }], and none of the three services is called a second time. *)
Theorem dependency_failure_gives_500_once (w : World) (req : ChatRequest)
    (h : ChatRequest -> list event * HttpResponse) :
  In h [chat_js_post_chat w; server_fixed_post_chat w;
        simple_chat_post_chat w] ->
  existsb failed_dependency (fst (h req)) = true ->
  generic_failure (snd (h req)) /\
  (count_calls is_embedding_call (fst (h req)) <= 1)%nat /\
  (count_calls is_vector_search_call (fst (h req)) <= 1)%nat /\
  (count_calls is_generation_call (fst (h req)) <= 1)%nat.
Proof.
  unfold generic_failure, count_calls.
  intros [<- | [<- | [<- | []]]];
    unfold chat_js_post_chat, server_fixed_post_chat, simple_chat_post_chat;
    split_calls w; cbn; intros Hfail; try discriminate Hfail;
    repeat split; lia.
Qed.

Lemma dependency_failure_gives_500_once_witness :
  generic_failure (snd (chat_js_post_chat world_generation_down dinner_request)) /\
  (count_calls is_embedding_call
     (fst (chat_js_post_chat world_generation_down dinner_request)) <= 1)%nat /\
  (count_calls is_vector_search_call
     (fst (chat_js_post_chat world_generation_down dinner_request)) <= 1)%nat /\
  (count_calls is_generation_call
     (fst (chat_js_post_chat world_generation_down dinner_request)) <= 1)%nat.
Proof.
  apply (dependency_failure_gives_500_once world_generation_down
           dinner_request (chat_js_post_chat world_generation_down)).
  - simpl. left. reflexivity.
  - reflexivity.
Defined.

(** ** The dinner-set scenario *)

Lemma retrieveRelevantDocs_ok (w : World) (q : string) (k : Z) (v : list Q)
    (docs : list RetrievedDocument) :
  embeddings_api w q = Some v ->
  match_embeddings w v k = {| data := Some docs; error := None |} ->
  retrieveRelevantDocs w q k =
    ([CallEmbedding q true; CallVectorSearch k true], inr docs).
Proof.
  intros He Hr. unfold retrieveRelevantDocs, getEmbedding.
  rewrite He. cbn. rewrite Hr. reflexivity.
Qed.

Lemma chatCompletion_ok (w : World) (p : string) (ms : list ChatMessage)
    (c : option string) :
  chat_completions_api w p ms = Some c ->
  chatCompletion w p ms = ([CallGeneration true], inr (str c)).
Proof.
  intros Hc. unfold chatCompletion. rewrite Hc. reflexivity.
Qed.

Lemma truthy_nonempty (s : string) : s <> "" -> truthy (Some s) = true.
Proof.
  intros Hs. cbn. destruct (String.eqb_spec s ""); [contradiction | reflexivity].
Qed.

(** Claim C8.  A request of [routes/chat.js] with the message "Tell me about
    your dinner sets" and a session id: when the embedding call answers,
    the vector search returns documents among which is one of source type
    [description], and the chat completion answers, the response is the 200
    answer whose provenance holds that document's product id. *)
Theorem dinner_sets_response_cites_product (w : World) (sid : string)
    (v : list Q) (docs : list RetrievedDocument) (d : RetrievedDocument)
    (completion : option string) :
  sid <> "" ->
  embeddings_api w dinner_query = Some v ->
  match_embeddings w v 5 = {| data := Some docs; error := None |} ->
  In d docs ->
  source_type d = "description" ->
  chat_completions_api w (chat_js_system_prompt w)
    (user_messages (buildContextText docs) dinner_query) = Some completion ->
  exists prov,
    snd (chat_js_post_chat w
           {| message := Some dinner_query; sessionId := Some sid |})
    = json (BodyAnswer (str completion) prov (RdCount (List.length docs))) /\
    In (product_id d) (map prov_product_id prov).
Proof.
  intros Hsid Hemb Hrpc Hin _ Hgen.
  exists (map cite_source docs). split.
  - unfold chat_js_post_chat. cbn [message sessionId str].
    rewrite (truthy_nonempty sid Hsid).
    change (truthy (Some dinner_query)) with true. cbn [negb].
    rewrite (retrieveRelevantDocs_ok w _ _ v docs Hemb Hrpc).
    destruct docs as [|d0 docs']; [destruct Hin|].
    cbn [bind List.length Nat.eqb].
    rewrite (chatCompletion_ok w _ _ completion Hgen).
    cbn [bind].
    match goal with
    | |- context [saveConversation w ?c] =>
        destruct (saveConversation_cases w c) as [[_ ->] | [? [_ [? ->]]]]
    end; reflexivity.
  - rewrite map_map. apply in_map_iff. exists d. split; [reflexivity | exact Hin].
Qed.

Lemma dinner_sets_response_cites_product_witness :
  exists prov,
    snd (chat_js_post_chat world_ok dinner_request)
    = json (BodyAnswer "Our Classic Gourmet dinner set has 24 pieces." prov
              (RdCount 2)) /\
    In "prod-dinner-01" (map prov_product_id prov).
Proof.
  apply (dinner_sets_response_cites_product world_ok "session-1"
           [1 # 2; 1 # 3] [dinner_faq; dinner_set] dinner_set
           (Some "Our Classic Gourmet dinner set has 24 pieces.")).
  - discriminate.
  - reflexivity.
  - reflexivity.
  - simpl. auto.
  - reflexivity.
  - reflexivity.
Defined.

(** ** Empty retrieval *)

Lemma chat_js_escalates_on_empty_retrieval (w : World) (req : ChatRequest)
    (t : list event) :
  truthy (message req) = true ->
  truthy (sessionId req) = true ->
  retrieveRelevantDocs w (str (message req)) 5 = (t, inr []) ->
  chat_js_post_chat w req = (t, json (BodyAnswer escalation [] RdEmptyArray)).
Proof.
  intros Hm Hs Hr. unfold chat_js_post_chat.
  rewrite Hm, Hs, Hr. cbn [negb bind List.length Nat.eqb ret handle].
  rewrite app_nil_r. reflexivity.
Qed.

(** Claim C1.  The search finds nothing for the dinner-set request.
    [routes/chat.js] answers with the escalation text and no provenance;
    [server-fixed.ts] and [simple-chat.ts] have no such test, call the chat
    completion on an empty context and answer with what it wrote, which here
    is not the escalation text. *)
Theorem server_fixed_answers_without_escalation :
  retrieveRelevantDocs world_no_docs dinner_query 5 =
    ([CallEmbedding dinner_query true; CallVectorSearch 5 true], inr []) /\
  snd (server_fixed_post_chat world_no_docs dinner_request) =
    json (BodyAnswer "We have many fine dinner sets." [] (RdCount 0)) /\
  snd (simple_chat_post_chat world_no_docs dinner_request) =
    json (BodyAnswer "We have many fine dinner sets." [] (RdCount 0)) /\
  "We have many fine dinner sets." <> escalation /\
  snd (chat_js_post_chat world_no_docs dinner_request) =
    json (BodyAnswer escalation [] RdEmptyArray).
Proof.
  repeat split; try reflexivity. discriminate.
Qed.

(** ** A failed persistence write *)

Lemma chat_js_swallows_persist_failure (w : World)
    (f : ConversationData -> option string) (req : ChatRequest) :
  snd (chat_js_post_chat (with_insert w f) req) =
  snd (chat_js_post_chat w req).
Proof.
  unfold chat_js_post_chat.
  change (retrieveRelevantDocs (with_insert w f))
    with (retrieveRelevantDocs w).
  change (chatCompletion (with_insert w f)) with (chatCompletion w).
  change (chat_js_system_prompt (with_insert w f))
    with (chat_js_system_prompt w).
  split_calls w; try reflexivity;
    split_calls (with_insert w f); reflexivity.
Qed.

Lemma chat_js_logs_persist_failure (w : World) (req : ChatRequest) :
  existsb failed_persist (fst (chat_js_post_chat w req)) = true ->
  (2 <= count_calls (is_log "Error saving conversation:")
          (fst (chat_js_post_chat w req)))%nat /\
  status (snd (chat_js_post_chat w req)) = 200%nat.
Proof.
  unfold chat_js_post_chat, count_calls.
  split_calls w; cbn; intros H; try discriminate H; split; auto.
Qed.

Lemma simple_chat_swallows_persist_failure (w : World)
    (f : ConversationData -> option string) (req : ChatRequest) :
  snd (simple_chat_post_chat (with_insert w f) req) =
  snd (simple_chat_post_chat w req).
Proof.
  unfold simple_chat_post_chat.
  change (simple_getEmbedding (with_insert w f))
    with (simple_getEmbedding w).
  change (simple_chatCompletion (with_insert w f))
    with (simple_chatCompletion w).
  change (server_system_prompt (with_insert w f))
    with (server_system_prompt w).
  change (env_configured (with_insert w f)) with (env_configured w).
  change (match_embeddings (with_insert w f)) with (match_embeddings w).
  split_calls w; reflexivity.
Qed.

(** Claim C5.  The dinner-set request on [server-fixed.ts]: with a store
    that takes the write the answer is 200 with the generated text; with a
    store that refuses it, after the same retrieval and the same generation,
    the answer is the 500 of the catch block.  ([routes/chat.js] and
    [simple-chat.ts] answer the same in both cases, see the two lemmas
    above.) *)
Theorem server_fixed_fails_on_persist_error :
  snd (server_fixed_post_chat world_ok dinner_request) =
    json (BodyAnswer "Our Classic Gourmet dinner set has 24 pieces."
            (map cite_snippet [dinner_faq; dinner_set]) (RdCount 2)) /\
  snd (server_fixed_post_chat world_store_down dinner_request) =
    internal_error /\
  fst (server_fixed_post_chat world_store_down dinner_request) =
    [CallEmbedding dinner_query true; CallVectorSearch 5 true;
     CallGeneration true; CallPersist false;
     LogError "Error saving conversation:"; LogError "Chat error:"].
Proof.
  repeat split; reflexivity.
Qed.
Local Open Scope string_scope.

(** ** The context block *)

Lemma join_cons2 (sep a b : string) (l : list string) :
  join sep (a :: b :: l) = a ++ sep ++ join sep (b :: l).
Proof. reflexivity. Qed.

Lemma append_assoc (a b c : string) : (a ++ b) ++ c = a ++ b ++ c.
Proof. induction a as [|x a IH]; cbn; [reflexivity | now rewrite IH]. Qed.

Lemma provenance_tag_optional_id (doc : RetrievedDocument) :
  provenance_tag doc = optional_id_tag doc.
Proof.
  unfold provenance_tag, optional_id_tag.
  destruct (source_id doc) as [[|c s]|]; reflexivity.
Qed.

Lemma context_text_layout (docs : list RetrievedDocument) :
  buildContextText docs = spec_context_text optional_id_tag docs.
Proof.
  unfold buildContextText.
  rewrite (map_ext _ (fun doc => optional_id_tag doc ++ nl ++ text_snippet doc))
    by (intros d; now rewrite provenance_tag_optional_id).
  induction docs as [|d [|d' rest] IH].
  - reflexivity.
  - reflexivity.
  - cbn [map] in *. rewrite join_cons2, IH.
    cbn [spec_context_text]. now rewrite !append_assoc.
Qed.

(** Claim C2, as amended.  [buildContextText] renders each document as the
    tag [[Product: <id>, Source: <type>, ID: <source id>]] when the document
    has a non-empty source id and as [[Product: <id>, Source: <type>]] when
    it has none, then a line feed and the snippet; two documents are
    separated by an empty line, and no document gives the empty text. *)
Theorem buildContextText_renders_optional_id
    (docs : list RetrievedDocument) :
  buildContextText docs = spec_context_text optional_id_tag docs.
Proof. exact (context_text_layout docs). Qed.

(** Extra X12.  On documents that all have a non-empty source id,
    [buildContextText] gives the block in the three-field format
    [[Product: <id>, Source: <type>, ID: <id>]] of the specification. *)
Lemma buildContextText_with_source_ids (docs : list RetrievedDocument) :
  Forall (fun d => truthy (source_id d) = true) docs ->
  buildContextText docs = spec_context_text spec_provenance_tag docs.
Proof.
  intros Hall. rewrite context_text_layout.
  induction docs as [|d [|d' rest] IH].
  - reflexivity.
  - inversion_clear Hall as [|? ? Hd _]. cbn.
    unfold optional_id_tag, spec_provenance_tag.
    destruct (source_id d) as [[|c s]|]; try discriminate Hd; reflexivity.
  - inversion_clear Hall as [|? ? Hd Hrest].
    cbn [spec_context_text] in *. rewrite (IH Hrest).
    unfold optional_id_tag, spec_provenance_tag.
    destruct (source_id d) as [[|c s]|]; try discriminate Hd; reflexivity.
Qed.

(** A document without source id: its tag has no [ID] part. *)
Lemma buildContextText_omits_missing_id :
  buildContextText [dinner_set] <>
  spec_context_text spec_provenance_tag [dinner_set].
Proof. discriminate. Qed.

Local Open Scope list_scope.
(** ** [searchProducts] *)

Lemma map_has_false (m : ProductMap) (k : string) :
  map_has m k = false ->
  ~ In k (map fst m) /\ forall v, map_set m k v = m ++ [(k, v)].
Proof.
  induction m as [|[k' v'] m IH]; cbn; intros H.
  - split; [tauto | reflexivity].
  - apply orb_false_iff in H as [Hk Hm].
    destruct (IH Hm) as [Hnot Hset]. split.
    + intros [-> | Hin]; [|tauto].
      now rewrite String.eqb_refl in Hk.
    + intros v. now rewrite Hk, Hset.
Qed.

Lemma map_has_true (m : ProductMap) (k : string) :
  map_has m k = true ->
  exists m1 v m2,
    m = m1 ++ (k, v) :: m2 /\ ~ In k (map fst m1) /\
    map_get m k = Some v /\
    forall v', map_set m k v' = m1 ++ (k, v') :: m2.
Proof.
  induction m as [|[k' v'] m IH]; cbn; intros H; [discriminate|].
  destruct (String.eqb_spec k' k) as [->|Hne].
  - exists [], v', m. cbn. repeat split; tauto.
  - destruct (IH H) as (m1 & v & m2 & -> & Hnot & Hget & Hset).
    exists ((k', v') :: m1), v, m2. cbn. repeat split; auto.
    + intros [Heq | Hin]; [now apply Hne | tauto].
    + intros v0. now rewrite Hset.
Qed.

Lemma map_get_appended (m : ProductMap) (k : string) (v : ProductHit) :
  ~ In k (map fst m) -> map_get (m ++ [(k, v)]) k = Some v.
Proof.
  induction m as [|[k' v'] m IH]; cbn; intros Hnot.
  - now rewrite String.eqb_refl.
  - destruct (String.eqb_spec k' k) as [->|_]; [tauto|]. apply IH. tauto.
Qed.

Lemma map_set_appended (m : ProductMap) (k : string) (v v' : ProductHit) :
  ~ In k (map fst m) -> map_set (m ++ [(k, v)]) k v' = m ++ [(k, v')].
Proof.
  induction m as [|[k0 v0] m IH]; cbn; intros Hnot.
  - now rewrite String.eqb_refl.
  - destruct (String.eqb_spec k0 k) as [->|_]; [tauto|].
    rewrite IH; tauto.
Qed.

Lemma Qgtb_true (a b : Q) : Qgtb a b = true -> b <= a.
Proof.
  unfold Qgtb. intros H. apply negb_true_iff in H.
  apply Qlt_le_weak, Qnot_le_lt. intros Hle.
  apply Qle_bool_iff in Hle. congruence.
Qed.

Lemma Qgtb_false (a b : Q) : Qgtb a b = false -> a <= b.
Proof.
  unfold Qgtb. intros H. apply negb_false_iff in H.
  now apply Qle_bool_iff.
Qed.

Lemma docs_of_product_snoc (k : string) (seen : list RetrievedDocument)
    (d : RetrievedDocument) :
  docs_of_product k (seen ++ [d]) =
  docs_of_product k seen ++
    (if String.eqb (product_id d) k then [d] else []).
Proof.
  unfold docs_of_product. rewrite filter_app. reflexivity.
Qed.

Lemma entry_ok_other (seen : list RetrievedDocument) (d : RetrievedDocument)
    (kv : string * ProductHit) :
  fst kv <> product_id d -> entry_ok seen kv -> entry_ok (seen ++ [d]) kv.
Proof.
  intros Hne (Hid & Hsn & Hmax). unfold entry_ok.
  rewrite docs_of_product_snoc.
  destruct (String.eqb_spec (product_id d) (fst kv)) as [Heq|_];
    [now symmetry in Heq|].
  now rewrite app_nil_r.
Qed.

Lemma is_max_similarity_push (m : Q) (snippets : list Snippet)
    (d : RetrievedDocument) :
  is_max_similarity m snippets ->
  is_max_similarity
    (if Qgtb (similarity d) m then similarity d else m)
    (snippets ++ [snippet_of d]).
Proof.
  intros [Hin Hall]. unfold is_max_similarity.
  rewrite map_app, Forall_app. cbn [map snippet_of snippet_similarity].
  destruct (Qgtb (similarity d) m) eqn:Hgt.
  - apply Qgtb_true in Hgt. split.
    + apply in_or_app. right. now left.
    + split.
      * eapply Forall_impl; [|exact Hall]. cbn. intros s Hs.
        eapply Qle_trans; eauto.
      * constructor; [apply Qle_refl | constructor].
  - apply Qgtb_false in Hgt. split.
    + apply in_or_app. now left.
    + split; [exact Hall|]. constructor; [exact Hgt | constructor].
Qed.

Lemma is_max_similarity_first (d : RetrievedDocument) :
  is_max_similarity
    (if Qgtb (similarity d) (similarity d) then similarity d else similarity d)
    ([] ++ [snippet_of d]).
Proof.
  replace (if Qgtb (similarity d) (similarity d)
           then similarity d else similarity d)
    with (similarity d) by (now destruct (Qgtb _ _)).
  split; cbn.
  - now left.
  - constructor; [apply Qle_refl | constructor].
Qed.

Lemma group_step_grouped (m : ProductMap) (seen : list RetrievedDocument)
    (d : RetrievedDocument) :
  grouped m seen -> grouped (group_step m d) (seen ++ [d]).
Proof.
  intros (Hnd & Hok & Hcov). unfold group_step.
  destruct (map_has m (product_id d)) eqn:Hhas; cbn [negb].
  - (* the product has its entry *)
    destruct (map_has_true m _ Hhas) as (m1 & v & m2 & -> & Hnot & Hget & Hset).
    rewrite Hget, Hset.
    rewrite map_app in Hnd. cbn [map fst] in Hnd.
    apply Forall_app in Hok as [Hok1 Hok2].
    inversion_clear Hok2 as [|? ? (Hid & Hsn & Hmax) Hok2'].
    cbn [fst snd] in *.
    split; [|split].
    + rewrite map_app. exact Hnd.
    + apply Forall_app. split.
      * eapply Forall_forall. intros kv Hin.
        apply entry_ok_other.
        -- intros Heq. apply Hnot. rewrite <- Heq. now apply in_map.
        -- eapply Forall_forall in Hok1; eauto.
      * constructor.
        -- unfold entry_ok. cbn [fst snd hit_product_id relevant_snippets
                                   max_similarity].
           split; [exact Hid|]. split.
           ++ rewrite docs_of_product_snoc, String.eqb_refl, map_app, Hsn.
              reflexivity.
           ++ now apply is_max_similarity_push.
        -- eapply Forall_forall. intros kv Hin.
           apply entry_ok_other.
           ++ intros Heq. apply NoDup_remove_2 in Hnd. apply Hnd.
              apply in_or_app. right. rewrite <- Heq. now apply in_map.
           ++ eapply Forall_forall in Hok2'; eauto.
    + intros d' Hin. rewrite map_app in *. cbn [map fst] in *.
      apply in_app_or in Hin as [Hin | [<- | []]].
      * now apply Hcov.
      * apply in_or_app. right. now left.
  - (* first document of the product *)
    destruct (map_has_false m _ Hhas) as [Hnot Hset].
    rewrite Hset, map_get_appended by exact Hnot.
    rewrite map_set_appended by exact Hnot.
    cbn [hit_product_id relevant_snippets max_similarity].
    split; [|split].
    + rewrite map_app. cbn [map fst].
      apply NoDup_app_remove_l with (l := []). cbn.
      apply Permutation_NoDup with (l := product_id d :: map fst m).
      * apply Permutation_cons_append.
      * now constructor.
    + apply Forall_app. split.
      * eapply Forall_forall. intros kv Hin.
        apply entry_ok_other.
        -- intros Heq. apply Hnot. rewrite <- Heq. now apply in_map.
        -- eapply Forall_forall in Hok; eauto.
      * constructor; [|constructor].
        unfold entry_ok. cbn [fst snd hit_product_id relevant_snippets
                                max_similarity].
        split; [reflexivity|]. split.
        -- rewrite docs_of_product_snoc, String.eqb_refl.
           assert (Hnone : docs_of_product (product_id d) seen = []).
           { unfold docs_of_product.
             destruct (filter _ seen) as [|d0 l] eqn:Hf; [reflexivity|].
             assert (Hd0 : In d0 (filter
               (fun d1 => String.eqb (product_id d1) (product_id d)) seen))
               by (rewrite Hf; now left).
             apply filter_In in Hd0 as [Hin Heq].
             apply String.eqb_eq in Heq. exfalso. apply Hnot.
             rewrite <- Heq. now apply Hcov. }
           rewrite Hnone. reflexivity.
        -- apply is_max_similarity_first.
    + intros d' Hin. rewrite map_app. cbn [map fst].
      apply in_app_or in Hin as [Hin | [<- | []]].
      * apply in_or_app. left. now apply Hcov.
      * apply in_or_app. right. now left.
Qed.

Lemma group_by_product_grouped (docs : list RetrievedDocument) :
  grouped (group_by_product docs) docs.
Proof.
  unfold group_by_product.
  assert (Hgen : forall rest m seen,
             grouped m seen ->
             grouped (fold_left group_step rest m) (seen ++ rest)).
  { induction rest as [|d rest IH]; intros m seen Hg; cbn.
    - now rewrite app_nil_r.
    - replace (seen ++ d :: rest) with ((seen ++ [d]) ++ rest)
        by (now rewrite <- app_assoc).
      apply IH. now apply group_step_grouped. }
  apply (Hgen docs [] []).
  split; [constructor | split; [constructor | intros d []]].
Qed.

Lemma sort_insert_perm (x : ProductHit) (l : list ProductHit) :
  Permutation (x :: l) (sort_insert x l).
Proof.
  induction l as [|y l IH]; cbn.
  - reflexivity.
  - destruct (Qle_bool (max_similarity y) (max_similarity x)).
    + reflexivity.
    + rewrite perm_swap. now constructor.
Qed.

Lemma sort_by_similarity_perm (l : list ProductHit) :
  Permutation l (sort_by_similarity l).
Proof.
  induction l as [|x l IH]; cbn.
  - constructor.
  - rewrite <- sort_insert_perm. now constructor.
Qed.

Lemma sort_insert_sorted (x : ProductHit) (l : list ProductHit) :
  StronglySorted ranked_before l ->
  StronglySorted ranked_before (sort_insert x l).
Proof.
  induction l as [|y l IH]; cbn; intros Hs.
  - repeat constructor.
  - inversion_clear Hs as [|? ? Hl Hy].
    destruct (Qle_bool (max_similarity y) (max_similarity x)) eqn:Hle.
    + apply Qle_bool_iff in Hle.
      constructor; [now constructor|].
      constructor; [exact Hle|].
      eapply Forall_impl; [|exact Hy].
      unfold ranked_before. intros z Hz. eapply Qle_trans; eauto.
    + constructor; [now apply IH|].
      eapply Permutation_Forall; [apply sort_insert_perm|].
      constructor; [|exact Hy].
      unfold ranked_before. apply Qlt_le_weak, Qnot_le_lt.
      intros H. apply Qle_bool_iff in H. congruence.
Qed.

Lemma sort_by_similarity_sorted (l : list ProductHit) :
  StronglySorted ranked_before (sort_by_similarity l).
Proof.
  induction l as [|x l IH]; cbn.
  - constructor.
  - now apply sort_insert_sorted.
Qed.

Lemma rank_products_spec (docs : list RetrievedDocument) :
  NoDup (map hit_product_id (rank_products docs)) /\
  (forall h, In h (rank_products docs) ->
     relevant_snippets h =
       map snippet_of (docs_of_product (hit_product_id h) docs) /\
     is_max_similarity (max_similarity h) (relevant_snippets h)) /\
  StronglySorted ranked_before (rank_products docs).
Proof.
  unfold rank_products.
  destruct (group_by_product_grouped docs) as (Hnd & Hok & _).
  set (m := group_by_product docs) in *.
  assert (Hkeys : map hit_product_id (map_values m) = map fst m).
  { unfold map_values. rewrite map_map. apply map_ext_in.
    intros kv Hin. eapply Forall_forall in Hok; eauto. apply Hok. }
  split; [|split].
  - eapply Permutation_NoDup.
    + apply Permutation_map, sort_by_similarity_perm.
    + now rewrite Hkeys.
  - intros h Hin.
    eapply Permutation_in in Hin;
      [|apply Permutation_sym, sort_by_similarity_perm].
    unfold map_values in Hin. apply in_map_iff in Hin as ([k v] & <- & Hin).
    eapply Forall_forall in Hok; eauto.
    destruct Hok as (Hid & Hsn & Hmax). cbn [fst snd] in *.
    rewrite Hid. split; assumption.
  - apply sort_by_similarity_sorted.
Qed.

(** Claim C10.  Whenever the retrieval returns documents, [searchProducts]
    returns a list of hits with pairwise distinct product ids; each hit
    holds the snippets of its product's documents, its [max_similarity] is
    one of their scores and no score of them is larger; and no hit has a
    smaller [max_similarity] than a later one. *)
Theorem searchProducts_ranks_distinct_products (w : World) (query : string)
    (topK : Z) (t : list event) (docs : list RetrievedDocument) :
  retrieveRelevantDocs w query topK = (t, inr docs) ->
  exists hits,
    searchProducts w query topK = (t, inr hits) /\
    NoDup (map hit_product_id hits) /\
    (forall h, In h hits ->
       relevant_snippets h =
         map snippet_of (docs_of_product (hit_product_id h) docs) /\
       is_max_similarity (max_similarity h) (relevant_snippets h)) /\
    StronglySorted ranked_before hits.
Proof.
  intros Hr. exists (rank_products docs). split.
  - unfold searchProducts. rewrite Hr. cbn. now rewrite app_nil_r.
  - apply rank_products_spec.
Qed.

Lemma searchProducts_ranks_distinct_products_witness :
  exists hits,
    searchProducts world_ok dinner_query 10 =
      ([CallEmbedding dinner_query true; CallVectorSearch 10 true],
       inr hits) /\
    NoDup (map hit_product_id hits) /\
    (forall h, In h hits ->
       relevant_snippets h =
         map snippet_of
           (docs_of_product (hit_product_id h) [dinner_faq; dinner_set]) /\
       is_max_similarity (max_similarity h) (relevant_snippets h)) /\
    StronglySorted ranked_before hits.
Proof.
  apply (searchProducts_ranks_distinct_products world_ok dinner_query 10).
  reflexivity.
Defined.

(** ** [routes/messages.ts] *)

Module MessagesFacts.
Import Messages.

Lemma insert_by_time_in (x y : MessageRow) (l : list MessageRow) :
  In y (insert_by_time x l) <-> y = x \/ In y l.
Proof.
  induction l as [|z l IH]; cbn.
  - intuition.
  - destruct (Nat.leb (created_at x) (created_at z)); cbn.
    + intuition.
    + rewrite IH. intuition.
Qed.

Lemma order_by_created_at_in (y : MessageRow) (l : list MessageRow) :
  In y (order_by_created_at l) <-> In y l.
Proof.
  induction l as [|x l IH]; cbn.
  - tauto.
  - rewrite insert_by_time_in, IH. intuition.
Qed.

(** A request is answered 201 only after all four checks, and then the new
    row is the last of the table. *)
Lemma post_message_created (db db' : Db) (insert_error : option string)
    (req : SendRequest) (resp : Response) :
  post_message db insert_error req = (resp, db') ->
  status resp = 201%nat ->
  truthy (userId req) = true /\
  includes valid_roles (str (body_role req)) = true /\
  truthy (body_content req) = true /\
  (exists c, conversationCheck db (str (conversationId req))
               (str (userId req)) = Some c) /\
  exists row,
    conversation_id row = str (conversationId req) /\
    role row = str (body_role req) /\
    content row = str (body_content req) /\
    body resp = SentBody "Message sent successfully" (view row) /\
    conversations db' = conversations db /\
    messages db' = messages db ++ [row].
Proof.
  unfold post_message. intros Hpost Hstatus.
  destruct (truthy (userId req)); cbn [negb] in Hpost;
    [|injection Hpost as <- <-; discriminate Hstatus].
  destruct (truthy (conversationId req)); cbn [negb orb] in Hpost;
    [|injection Hpost as <- <-; discriminate Hstatus].
  destruct (truthy (body_role req)); cbn [negb orb] in Hpost;
    [|injection Hpost as <- <-; discriminate Hstatus].
  destruct (truthy (body_content req)); cbn [negb orb] in Hpost;
    [|injection Hpost as <- <-; discriminate Hstatus].
  destruct (includes valid_roles (str (body_role req))); cbn [negb] in Hpost;
    [|injection Hpost as <- <-; discriminate Hstatus].
  destruct (conversationCheck db _ _) as [c|];
    [|injection Hpost as <- <-; discriminate Hstatus].
  destruct insert_error;
    [injection Hpost as <- <-; discriminate Hstatus|].
  injection Hpost as <- <-.
  split; [reflexivity|]. split; [reflexivity|]. split; [reflexivity|].
  split; [now exists c|].
  match type of Hstatus with
  | context [view ?r] => exists r
  end.
  repeat (split; [reflexivity|]). reflexivity.
Qed.

(** Claim C3.  A message that [POST /] answered with 201 is returned, with
    the role and the content of the request, by the
    [GET /conversation/:conversationId] that the same user sends next for
    that conversation and that the store answers. *)
Theorem sent_message_is_listed (db db' : Db) (insert_error : option string)
    (req : SendRequest) (resp : Response) :
  post_message db insert_error req = (resp, db') ->
  status resp = 201%nat ->
  exists listed m,
    get_conversation db' None (userId req) (str (conversationId req)) =
      {| status := 200; body := ListBody listed |} /\
    In m listed /\
    view_role m = str (body_role req) /\
    view_content m = str (body_content req) /\
    body resp = SentBody "Message sent successfully" m.
Proof.
  intros Hpost Hstatus.
  destruct (post_message_created _ _ _ _ _ Hpost Hstatus)
    as (Huser & _ & _ & [c Hc] & row & Hcid & Hrole & Hcontent & Hbody
        & Hconvs & Hmsgs).
  eexists. exists (view row). split; [|split; [|split; [|split]]].
  - unfold get_conversation. rewrite Huser. cbn [negb].
    unfold conversationCheck in *. rewrite Hconvs, Hc. reflexivity.
  - apply in_map, order_by_created_at_in, filter_In. split.
    + rewrite Hmsgs. apply in_or_app. right. now left.
    + rewrite Hcid. apply String.eqb_refl.
  - exact Hrole.
  - exact Hcontent.
  - exact Hbody.
Qed.

Lemma sent_message_is_listed_witness :
  exists listed m,
    get_conversation
      (snd (post_message sample_db None sample_send)) None
      (Some "alice") "conv-1" =
      {| status := 200; body := ListBody listed |} /\
    In m listed /\
    view_role m = "assistant" /\
    view_content m = "Welcome to RAK Porcelain." /\
    body (fst (post_message sample_db None sample_send)) =
      SentBody "Message sent successfully" m.
Proof.
  apply (sent_message_is_listed sample_db
           (snd (post_message sample_db None sample_send)) None sample_send
           (fst (post_message sample_db None sample_send))).
  - reflexivity.
  - reflexivity.
Defined.

(** Claim C4, as amended.  A [POST /] whose role is outside [user],
    [assistant], [system] or whose content is empty leaves the tables as they
    were; it is answered 400 when the request has a user and 401 when it has
    none. *)
Theorem invalid_message_is_rejected (db : Db) (insert_error : option string)
    (req : SendRequest) :
  lacks_required_fields req = true ->
  snd (post_message db insert_error req) = db /\
  status (fst (post_message db insert_error req)) =
    (if truthy (userId req) then 400 else 401)%nat.
Proof.
  unfold lacks_required_fields, post_message. intros Hbad.
  destruct (truthy (userId req)); cbn [negb]; [|split; reflexivity].
  destruct (truthy (conversationId req)); cbn [negb orb];
    [|split; reflexivity].
  destruct (truthy (body_role req)); cbn [negb orb]; [|split; reflexivity].
  destruct (truthy (body_content req)); cbn [negb orb] in *;
    [|split; reflexivity].
  rewrite orb_false_r in Hbad. rewrite Hbad. split; reflexivity.
Qed.

Lemma invalid_message_is_rejected_witness :
  snd (post_message sample_db None admin_send) = sample_db /\
  status (fst (post_message sample_db None admin_send)) = 400%nat.
Proof.
  apply (invalid_message_is_rejected sample_db None admin_send).
  reflexivity.
Defined.

(** The role [admin] sent without a user: 401, not 400. *)
Lemma anonymous_invalid_message_gets_401 :
  lacks_required_fields anonymous_admin_send = true /\
  status (fst (post_message sample_db None anonymous_admin_send)) = 401%nat /\
  status (fst (post_message sample_db None anonymous_admin_send)) <> 400%nat.
Proof.
  repeat split. discriminate.
Qed.

End MessagesFacts.

(** ** [chunkText] *)

Module IngestFacts.
Import Ingest.

(** *** Splitting and joining *)

Lemma split_by_nonempty (p : unit16 -> bool) (s : text) :
  exists piece pieces, split_by p s = piece :: pieces.
Proof.
  induction s as [|c s (piece & pieces & IH)]; cbn.
  - eauto.
  - destruct (p c); [eauto|]. rewrite IH. eauto.
Qed.

Lemma split_by_length (p : unit16 -> bool) (s : text) :
  List.length (split_by p s) = S (count p s).
Proof.
  unfold count. induction s as [|c s IH]; cbn.
  - reflexivity.
  - destruct (p c); cbn.
    + now rewrite IH.
    + destruct (split_by_nonempty p s) as (piece & pieces & Hs).
      rewrite Hs in *. exact IH.
Qed.

Lemma split_by_app (p : unit16 -> bool) (a b : text) (c : unit16) :
  p c = true ->
  split_by p (a ++ c :: b) = split_by p a ++ split_by p b.
Proof.
  intros Hc. induction a as [|x a IH]; cbn.
  - now rewrite Hc.
  - rewrite IH. destruct (p x); [reflexivity|].
    destruct (split_by_nonempty p a) as (piece & pieces & ->). reflexivity.
Qed.

Lemma split_by_pieces (p : unit16 -> bool) (s : text) :
  Forall (fun piece => count p piece = 0%nat) (split_by p s).
Proof.
  unfold count. induction s as [|c s IH]; cbn.
  - repeat constructor.
  - destruct (p c) eqn:Hc.
    + constructor; [reflexivity | exact IH].
    + destruct (split_by p s) as [|piece pieces]; [repeat constructor; cbn; now rewrite Hc|].
      inversion_clear IH as [|? ? Hpiece Hrest].
      constructor; [|exact Hrest]. cbn. now rewrite Hc.
Qed.

Lemma is_space_eq (c : unit16) : is_space c = true -> c = space.
Proof. unfold is_space. apply N.eqb_eq. Qed.

Lemma join_space_cons (piece : text) (rest : list text) :
  rest <> [] ->
  join_space (piece :: rest) = piece ++ space :: join_space rest.
Proof. destruct rest; [congruence | reflexivity]. Qed.

Lemma join_split (s : text) : join_space (split_by is_space s) = s.
Proof.
  induction s as [|c s IH]; cbn [split_by].
  - reflexivity.
  - destruct (split_by_nonempty is_space s) as (piece & pieces & Hs).
    rewrite Hs in *. destruct (is_space c) eqn:Hc.
    + rewrite join_space_cons by discriminate.
      rewrite IH. apply is_space_eq in Hc. now subst c.
    + destruct pieces as [|piece' pieces].
      * cbn in *. now subst.
      * rewrite join_space_cons in * by discriminate.
        rewrite <- IH. reflexivity.
Qed.

Lemma count_app (p : unit16 -> bool) (a b : text) :
  count p (a ++ b) = (count p a + count p b)%nat.
Proof. unfold count. now rewrite filter_app, length_app. Qed.

Lemma count_join_space (pieces : list text) :
  Forall (fun piece => count is_space piece = 0%nat) pieces ->
  count is_space (join_space pieces) = (List.length pieces - 1)%nat.
Proof.
  induction pieces as [|piece [|piece' rest] IH]; intros Hall.
  - reflexivity.
  - inversion_clear Hall. cbn. assumption.
  - inversion_clear Hall as [|? ? Hpiece Hrest].
    rewrite join_space_cons by discriminate.
    rewrite count_app, Hpiece.
    change (count is_space (space :: join_space (piece' :: rest)))
      with (S (count is_space (join_space (piece' :: rest)))).
    rewrite (IH Hrest). cbn [List.length]. lia.
Qed.

(** *** Trimming *)

Lemma trim_start_suffix (s : text) :
  exists head, s = head ++ trim_start s /\ Forall (fun c => is_ws c = true) head.
Proof.
  induction s as [|c s (head & IH & Hws)]; cbn.
  - exists []. split; [reflexivity | constructor].
  - destruct (is_ws c) eqn:Hc.
    + exists (c :: head). split; [cbn; now rewrite <- IH | now constructor].
    + exists []. split; [reflexivity | constructor].
Qed.

Lemma trim_end_prefix (s : text) :
  exists tail, s = trim_end s ++ tail /\ Forall (fun c => is_ws c = true) tail.
Proof.
  induction s as [|c s (tail & IH & Hws)]; cbn.
  - exists []. split; [reflexivity | constructor].
  - destruct (trim_end s) as [|k kept].
    + cbn in IH. subst tail. destruct (is_ws c) eqn:Hc.
      * exists (c :: s). split; [reflexivity | now constructor].
      * exists s. split; [reflexivity | exact Hws].
    + exists tail. split; [cbn; now rewrite IH at 1 | exact Hws].
Qed.

Lemma count_trim (p : unit16 -> bool) (s : text) :
  (count p (trim s) <= count p s)%nat.
Proof.
  unfold trim.
  destruct (trim_start_suffix s) as (head & Hs & _).
  destruct (trim_end_prefix (trim_start s)) as (tail & Ht & _).
  rewrite Hs at 2. rewrite Ht at 2. rewrite !count_app. lia.
Qed.

(** *** Words separated by white space *)

Lemma ws_words_app (a b : text) (c : unit16) :
  is_ws c = true -> ws_words (a ++ c :: b) = ws_words a ++ ws_words b.
Proof.
  intros Hc. unfold ws_words. now rewrite split_by_app, filter_app.
Qed.

Lemma ws_words_blank (s : text) :
  Forall (fun c => is_ws c = true) s -> ws_words s = [].
Proof.
  induction 1 as [|c s Hc _ IH]; [reflexivity|].
  change (c :: s) with ([] ++ c :: s). now rewrite ws_words_app, IH.
Qed.

Lemma ws_words_blank_head (head s : text) :
  Forall (fun c => is_ws c = true) head -> ws_words (head ++ s) = ws_words s.
Proof.
  induction 1 as [|c head Hc _ IH]; [reflexivity|].
  change ((c :: head) ++ s) with ([] ++ c :: (head ++ s)).
  now rewrite ws_words_app, IH.
Qed.

Lemma ws_words_blank_tail (s tail : text) :
  Forall (fun c => is_ws c = true) tail -> ws_words (s ++ tail) = ws_words s.
Proof.
  intros Hws. destruct tail as [|c tail]; [now rewrite app_nil_r|].
  inversion_clear Hws as [|? ? Hc Htail].
  rewrite ws_words_app by exact Hc.
  rewrite (ws_words_blank tail Htail). apply app_nil_r.
Qed.

Lemma ws_words_trim (s : text) : ws_words (trim s) = ws_words s.
Proof.
  unfold trim.
  destruct (trim_start_suffix s) as (head & Hs & Hhead).
  destruct (trim_end_prefix (trim_start s)) as (tail & Ht & Htail).
  rewrite Hs at 2. rewrite ws_words_blank_head by exact Hhead.
  rewrite Ht at 2. now rewrite ws_words_blank_tail.
Qed.

Lemma space_is_ws : is_ws space = true.
Proof. reflexivity. Qed.

Lemma ws_words_join_space (pieces : list text) :
  ws_words (join_space pieces) = flat_map ws_words pieces.
Proof.
  induction pieces as [|piece [|piece' rest] IH].
  - reflexivity.
  - cbn. now rewrite app_nil_r.
  - rewrite join_space_cons by discriminate.
    rewrite ws_words_app by exact space_is_ws.
    rewrite IH. reflexivity.
Qed.

Lemma ws_words_split (s : text) :
  ws_words s = flat_map ws_words (split_by is_space s).
Proof. now rewrite <- ws_words_join_space, join_split. Qed.


(** *** Windows *)

Lemma slice_window {A} (l : list A) (i chunkSize : Z) :
  (0 <= i < Z.of_nat (List.length l))%Z -> (0 < chunkSize)%Z ->
  slice l i (i + chunkSize) =
  firstn (Z.to_nat chunkSize) (skipn (Z.to_nat i) l).
Proof.
  intros Hi Hcs. unfold slice, slice_index.
  destruct (Z.ltb_spec i 0); [lia|].
  destruct (Z.ltb_spec (i + chunkSize) 0); [lia|].
  rewrite (Z.min_l i) by lia.
  assert (Hlen : List.length (skipn (Z.to_nat i) l) =
                 (List.length l - Z.to_nat i)%nat) by apply length_skipn.
  destruct (Z.le_ge_cases (i + chunkSize) (Z.of_nat (List.length l))).
  - rewrite Z.min_l, Z.max_l by lia. f_equal. lia.
  - rewrite Z.min_r, Z.max_l by lia.
    rewrite !firstn_all2; [reflexivity | lia | lia].
Qed.

Lemma slice_length {A} (l : list A) (i chunkSize : Z) :
  (0 <= i < Z.of_nat (List.length l))%Z -> (0 < chunkSize)%Z ->
  (Z.of_nat (List.length (slice l i (i + chunkSize))) <= chunkSize)%Z.
Proof.
  intros Hi Hcs. rewrite slice_window, length_firstn by assumption. lia.
Qed.

Lemma slice_incl {A} (l : list A) (i chunkSize : Z) (x : A) :
  (0 <= i < Z.of_nat (List.length l))%Z -> (0 < chunkSize)%Z ->
  In x (slice l i (i + chunkSize)) -> In x l.
Proof.
  intros Hi Hcs. rewrite slice_window by assumption. intros Hin.
  rewrite <- (firstn_skipn (Z.to_nat i) l). apply in_or_app. right.
  rewrite <- (firstn_skipn (Z.to_nat chunkSize) (skipn (Z.to_nat i) l)).
  apply in_or_app. now left.
Qed.

Lemma slice_covers {A} (l : list A) (i chunkSize : Z) (j : nat) (x : A) :
  (0 <= i < Z.of_nat (List.length l))%Z -> (0 < chunkSize)%Z ->
  (i <= Z.of_nat j < i + chunkSize)%Z ->
  nth_error l j = Some x ->
  In x (slice l i (i + chunkSize)).
Proof.
  intros Hi Hcs Hj Hx. rewrite slice_window by assumption.
  apply nth_error_In with (n := (j - Z.to_nat i)%nat).
  rewrite nth_error_firstn.
  destruct (Nat.ltb_spec (j - Z.to_nat i) (Z.to_nat chunkSize)); [|lia].
  rewrite nth_error_skipn. rewrite <- Hx. f_equal. lia.
Qed.

(** *** The loop *)

Lemma chunk_loop_step (fuel : nat) (words : list text)
    (chunkSize overlap i : Z) (chunks : list text) :
  chunk_loop (S fuel) words chunkSize overlap i chunks =
  if Z.ltb i (Z.of_nat (List.length words)) then
    chunk_loop fuel words chunkSize overlap (i + (chunkSize - overlap))
      (if Nat.ltb 0 (List.length (chunk_at words chunkSize i))
       then chunks ++ [chunk_at words chunkSize i] else chunks)
  else Some chunks.
Proof. reflexivity. Qed.

Lemma chunk_loop_stop (words : list text) (chunkSize overlap i : Z)
    (chunks : list text) :
  chunk_loop 0 words chunkSize overlap i chunks =
  if Z.ltb i (Z.of_nat (List.length words)) then None else Some chunks.
Proof. reflexivity. Qed.

Lemma chunk_loop_deterministic (words : list text) (chunkSize overlap : Z)
    (fuel1 fuel2 : nat) (i : Z) (chunks r1 r2 : list text) :
  chunk_loop fuel1 words chunkSize overlap i chunks = Some r1 ->
  chunk_loop fuel2 words chunkSize overlap i chunks = Some r2 ->
  r1 = r2.
Proof.
  revert fuel2 i chunks.
  induction fuel1 as [|fuel1 IH]; intros [|fuel2] i chunks;
    rewrite ?chunk_loop_step, ?chunk_loop_stop;
    destruct (Z.ltb i (Z.of_nat (List.length words)));
    try congruence.
  apply IH.
Qed.

Lemma nonempty_length (s : text) :
  Nat.ltb 0 (List.length s) = true <-> s <> [].
Proof.
  destruct s; cbn; split; intros H; congruence.
Qed.

Lemma chunk_loop_spec (words : list text) (chunkSize overlap : Z) :
  (0 <= overlap < chunkSize)%Z ->
  forall (fuel : nat) (i : Z) (chunks : list text),
    (0 <= i)%Z ->
    (Z.of_nat (List.length words) - i <= Z.of_nat fuel)%Z ->
    exists rest,
      chunk_loop fuel words chunkSize overlap i chunks = Some (chunks ++ rest) /\
      (forall c, In c rest ->
         c <> [] /\
         exists k, (0 <= k < Z.of_nat (List.length words))%Z /\
                   c = chunk_at words chunkSize k) /\
      (forall j : nat,
         (i <= Z.of_nat j < Z.of_nat (List.length words))%Z ->
         exists k, (0 <= k < Z.of_nat (List.length words))%Z /\
                   (k <= Z.of_nat j < k + chunkSize)%Z /\
                   (chunk_at words chunkSize k <> [] ->
                    In (chunk_at words chunkSize k) rest)).
Proof.
  intros Hov. induction fuel as [|fuel IH]; intros i chunks Hi Hfuel.
  - rewrite chunk_loop_stop.
    destruct (Z.ltb_spec i (Z.of_nat (List.length words))); [lia|].
    exists []. rewrite app_nil_r. split; [reflexivity|].
    split; [intros c [] | intros j Hj; lia].
  - rewrite chunk_loop_step.
    destruct (Z.ltb_spec i (Z.of_nat (List.length words))) as [Hlt|Hge].
    + set (next := if Nat.ltb 0 (List.length (chunk_at words chunkSize i))
                   then chunks ++ [chunk_at words chunkSize i] else chunks).
      destruct (IH (i + (chunkSize - overlap))%Z next)
        as (rest & Hrun & Hfrom & Hcover); [lia | lia |].
      assert (Hlater : forall j : nat,
        (i + chunkSize <= Z.of_nat j < Z.of_nat (List.length words))%Z ->
        exists k, (0 <= k < Z.of_nat (List.length words))%Z /\
                  (k <= Z.of_nat j < k + chunkSize)%Z /\
                  (chunk_at words chunkSize k <> [] ->
                   In (chunk_at words chunkSize k) rest)).
      { intros j Hj. apply Hcover. lia. }
      subst next.
      destruct (Nat.ltb 0 (List.length (chunk_at words chunkSize i))) eqn:Hne.
      * exists (chunk_at words chunkSize i :: rest).
        rewrite Hrun, <- app_assoc. split; [reflexivity|]. split.
        -- intros c [<- | Hin]; [|now apply Hfrom].
           split; [now apply nonempty_length|]. exists i. split; [lia | reflexivity].
        -- intros j Hj.
           destruct (Z.lt_ge_cases (Z.of_nat j) (i + chunkSize)) as [Hin|Hout].
           ++ exists i. split; [lia|]. split; [lia|]. intros _. now left.
           ++ destruct (Hlater j) as (k & Hk & Hjk & Hpush); [lia|].
              exists k. split; [exact Hk|]. split; [exact Hjk|].
              intros Hc. right. now apply Hpush.
      * exists rest. rewrite Hrun. split; [reflexivity|]. split.
        -- exact Hfrom.
        -- intros j Hj.
           destruct (Z.lt_ge_cases (Z.of_nat j) (i + chunkSize)) as [Hin|Hout].
           ++ exists i. split; [lia|]. split; [lia|]. intros Hc.
              apply nonempty_length in Hc. congruence.
           ++ apply Hlater. lia.
    + exists []. rewrite app_nil_r. split; [reflexivity|].
      split; [intros c [] | intros j Hj; lia].
Qed.

(** With no step forward the loop is never left. *)
Lemma chunk_loop_stuck (words : list text) (chunkSize overlap : Z) :
  (chunkSize <= overlap)%Z ->
  forall (fuel : nat) (i : Z) (chunks : list text),
    (i < Z.of_nat (List.length words))%Z ->
    chunk_loop fuel words chunkSize overlap i chunks = None.
Proof.
  intros Hov. induction fuel as [|fuel IH]; intros i chunks Hi.
  - rewrite chunk_loop_stop.
    now destruct (Z.ltb_spec i (Z.of_nat (List.length words))); [|lia].
  - rewrite chunk_loop_step.
    destruct (Z.ltb_spec i (Z.of_nat (List.length words))); [|lia].
    apply IH. lia.
Qed.

(** Extra X15.  When [overlap] is at least [chunkSize] the index of the
    loop never moves forward, and [chunkText] does not return, whatever the
    text and however long it runs. *)
Lemma chunkText_diverges (fuel : nat) (t : text) (chunkSize overlap : Z) :
  (chunkSize <= overlap)%Z -> chunkText fuel t chunkSize overlap = None.
Proof.
  intros Hov. unfold chunkText. apply chunk_loop_stuck; [exact Hov|].
  rewrite split_by_length. lia.
Qed.


(** *** The chunks *)

Lemma chunk_at_bound (words : list text) (chunkSize k : Z) :
  Forall (fun piece => count is_space piece = 0%nat) words ->
  (0 <= k < Z.of_nat (List.length words))%Z -> (0 < chunkSize)%Z ->
  (Z.of_nat (List.length (split_by is_space (chunk_at words chunkSize k)))
   <= chunkSize)%Z.
Proof.
  intros Hwords Hk Hcs. unfold chunk_at.
  rewrite split_by_length.
  pose proof (count_trim is_space
                (join_space (slice words k (k + chunkSize)))) as Htrim.
  rewrite count_join_space in Htrim.
  - pose proof (slice_length words k chunkSize Hk Hcs). lia.
  - apply Forall_forall. intros piece Hin.
    eapply Forall_forall in Hwords; [exact Hwords|].
    eapply slice_incl; eauto.
Qed.

(** Claim C9, as amended.  For [0 <= overlap < chunkSize] the loop of
    [chunkText] is left, with the same chunks for every fuel of at least the
    number of space-separated pieces; every chunk has at most [chunkSize]
    space-separated pieces; and every word of the text, a word being a
    maximal run of units that are not white space, is a word of some
    chunk. *)
Theorem chunkText_terminates_bounded_covering (t : text)
    (chunkSize overlap : Z) :
  (0 <= overlap < chunkSize)%Z ->
  exists chunks,
    (forall fuel, (List.length (split_by is_space t) <= fuel)%nat ->
                  chunkText fuel t chunkSize overlap = Some chunks) /\
    (forall c, In c chunks ->
       (Z.of_nat (List.length (split_by is_space c)) <= chunkSize)%Z) /\
    (forall word, In word (ws_words t) ->
       exists c, In c chunks /\ In word (ws_words c)).
Proof.
  intros Hov. unfold chunkText.
  set (words := split_by is_space t).
  destruct (chunk_loop_spec words chunkSize overlap Hov
              (List.length words) 0 []) as (chunks & Hrun & Hfrom & Hcover);
    [lia | lia |].
  exists chunks. split; [|split].
  - intros fuel Hfuel.
    destruct (chunk_loop_spec words chunkSize overlap Hov fuel 0 [])
      as (chunks' & Hrun' & _); [lia | lia |].
    rewrite Hrun'. f_equal.
    eapply chunk_loop_deterministic; eauto.
  - intros c Hin. destruct (Hfrom c Hin) as (_ & k & Hk & ->).
    apply chunk_at_bound; [apply split_by_pieces | exact Hk | lia].
  - intros word Hword. rewrite ws_words_split in Hword.
    apply in_flat_map in Hword as (piece & Hpiece & Hword).
    apply In_nth_error in Hpiece as (j & Hj).
    assert (Hjlen : (j < List.length words)%nat).
    { apply nth_error_Some. fold words in Hj. congruence. }
    destruct (Hcover j) as (k & Hk & Hjk & Hpush); [lia|].
    assert (Hin : In word (ws_words (chunk_at words chunkSize k))).
    { unfold chunk_at. rewrite ws_words_trim, ws_words_join_space.
      apply in_flat_map. exists piece. split; [|exact Hword].
      eapply slice_covers; eauto. lia. }
    exists (chunk_at words chunkSize k). split; [|exact Hin].
    apply Hpush. intros Hempty. rewrite Hempty in Hin. exact Hin.
Qed.

Lemma chunkText_terminates_bounded_covering_witness :
  exists chunks,
    (forall fuel,
       (List.length (split_by is_space (of_string "white  plates and cups"))
        <= fuel)%nat ->
       chunkText fuel (of_string "white  plates and cups") 2 1
       = Some chunks) /\
    (forall c, In c chunks ->
       (Z.of_nat (List.length (split_by is_space c)) <= 2)%Z) /\
    (forall word, In word (ws_words (of_string "white  plates and cups")) ->
       exists c, In c chunks /\ In word (ws_words c)).
Proof.
  apply (chunkText_terminates_bounded_covering
           (of_string "white  plates and cups") 2 1).
  lia.
Defined.

(** The claim read with one meaning of "word" fails either way: with the
    space-separated pieces a piece of white space is in no chunk, with the
    words between white space a chunk can hold more than [chunkSize]. *)
Lemma chunk_contract_fails :
  ~ chunk_contract (split_by is_space) /\ ~ chunk_contract ws_words.
Proof.
  split; intros Hclaim.
  - (* the text of one line feed: its only word is dropped *)
    destruct (Hclaim [10%N] 500%Z 100%Z) as (chunks & [fuel Hrun] & _ & Hcover);
      [lia|].
    assert (Hnone : chunks = []).
    { symmetry. eapply (chunk_loop_deterministic _ _ _ 1%nat fuel);
        [|exact Hrun]. reflexivity. }
    subst chunks.
    destruct (Hcover [10%N]) as (c & [] & _). now left.
  - (* two words around a line feed make one chunk of size one *)
    destruct (Hclaim [97%N; 10%N; 98%N] 1%Z 0%Z)
      as (chunks & [fuel Hrun] & Hbound & _); [lia|].
    assert (Hone : chunks = [[97%N; 10%N; 98%N]]).
    { symmetry. eapply (chunk_loop_deterministic _ _ _ 1%nat fuel);
        [|exact Hrun]. reflexivity. }
    subst chunks.
    specialize (Hbound [97%N; 10%N; 98%N] (or_introl eq_refl)).
    cbn in Hbound. lia.
Qed.

End IngestFacts.

(* ===================================================================== *)
(** * Part II, continued. The rest of the cited files                     *)
(* ===================================================================== *)

(** ** More on the chat handlers *)

(** Extra X1.  [routes/chat.js], a request with a message and a session id
    for which the retrieval returns no document: the answer is the
    escalation text with no provenance, the chat completion is not called
    and nothing is written to the store. *)
Theorem chat_js_escalation_is_not_generated (w : World) (req : ChatRequest)
    (t : list event) :
  truthy (message req) = true ->
  truthy (sessionId req) = true ->
  retrieveRelevantDocs w (str (message req)) 5 = (t, inr []) ->
  snd (chat_js_post_chat w req) =
    json (BodyAnswer escalation [] RdEmptyArray) /\
  existsb is_generation_call (fst (chat_js_post_chat w req)) = false /\
  existsb is_persist_call (fst (chat_js_post_chat w req)) = false.
Proof.
  intros Hm Hs Hr.
  rewrite (chat_js_escalates_on_empty_retrieval w req t Hm Hs Hr).
  cbn [fst snd]. split; [reflexivity|].
  destruct (retrieveRelevantDocs_cases w (str (message req)) 5)
    as [[docs H] | [[e H] | [e H]]]; rewrite H in Hr;
    injection Hr as <-; try discriminate.
  split; reflexivity.
Qed.

Lemma chat_js_escalation_is_not_generated_witness :
  snd (chat_js_post_chat world_no_docs dinner_request) =
    json (BodyAnswer escalation [] RdEmptyArray) /\
  existsb is_generation_call
    (fst (chat_js_post_chat world_no_docs dinner_request)) = false /\
  existsb is_persist_call
    (fst (chat_js_post_chat world_no_docs dinner_request)) = false.
Proof.
  apply (chat_js_escalation_is_not_generated world_no_docs dinner_request
           [CallEmbedding dinner_query true; CallVectorSearch 5 true]);
    reflexivity.
Defined.

(** Extra X2.  For [routes/chat.js] and for [simple-chat.ts] the response
    does not depend on what the insert into [conversations] answers. *)
Theorem response_ignores_the_store (w : World)
    (f : ConversationData -> option string) (req : ChatRequest) :
  snd (chat_js_post_chat (with_insert w f) req) =
    snd (chat_js_post_chat w req) /\
  snd (simple_chat_post_chat (with_insert w f) req) =
    snd (simple_chat_post_chat w req).
Proof.
  split.
  - apply chat_js_swallows_persist_failure.
  - apply simple_chat_swallows_persist_failure.
Qed.

(** Extra X3.  A request that one of the three handlers answers with 400
    caused no call to a service and no log line. *)
Theorem rejected_request_makes_no_call (w : World) (req : ChatRequest)
    (h : ChatRequest -> list event * HttpResponse) :
  In h [chat_js_post_chat w; server_fixed_post_chat w;
        simple_chat_post_chat w] ->
  status (snd (h req)) = 400%nat ->
  fst (h req) = [].
Proof.
  intros [<- | [<- | [<- | []]]];
    unfold chat_js_post_chat, server_fixed_post_chat, simple_chat_post_chat;
    split_calls w; cbn; intros H; try discriminate H; reflexivity.
Qed.

Lemma rejected_request_makes_no_call_witness :
  fst (chat_js_post_chat world_ok
         {| message := Some dinner_query; sessionId := None |}) = [].
Proof.
  apply (rejected_request_makes_no_call world_ok
           {| message := Some dinner_query; sessionId := None |}
           (chat_js_post_chat world_ok)).
  - simpl. left. reflexivity.
  - reflexivity.
Defined.

(** Extra X4.  [server-fixed.ts] and [simple-chat.ts]: when the OpenAI key
    or the Supabase URL is not set, a request with a message is answered
    200 with the set-up text, no provenance and a count of zero, and no
    service is called. *)
Theorem unconfigured_server_answers_setup (w : World) (req : ChatRequest) :
  truthy (message req) = true ->
  env_openai_api_key w && env_supabase_url w = false ->
  server_fixed_post_chat w req =
    ([], json (BodyAnswer setup_answer [] (RdCount 0))) /\
  simple_chat_post_chat w req =
    ([], json (BodyAnswer setup_answer [] (RdCount 0))).
Proof.
  intros Hm Henv.
  unfold server_fixed_post_chat, simple_chat_post_chat, env_configured.
  rewrite Hm, Henv. split; reflexivity.
Qed.

Lemma unconfigured_server_answers_setup_witness :
  server_fixed_post_chat
    {| env_openai_api_key := false;
       env_supabase_url := true;
       system_prompt_file := None;
       embeddings_api := embeddings_api world_ok;
       match_embeddings := match_embeddings world_ok;
       chat_completions_api := chat_completions_api world_ok;
       conversations_insert := conversations_insert world_ok |}
    dinner_request =
    ([], json (BodyAnswer setup_answer [] (RdCount 0))) /\
  simple_chat_post_chat
    {| env_openai_api_key := false;
       env_supabase_url := true;
       system_prompt_file := None;
       embeddings_api := embeddings_api world_ok;
       match_embeddings := match_embeddings world_ok;
       chat_completions_api := chat_completions_api world_ok;
       conversations_insert := conversations_insert world_ok |}
    dinner_request =
    ([], json (BodyAnswer setup_answer [] (RdCount 0))).
Proof.
  apply unconfigured_server_answers_setup; reflexivity.
Defined.

(** Extra X5.  In each of the three handlers a write to the store is made
    only for a request with a session id and only after the embedding call,
    the vector search and the chat completion, in this order, have all
    succeeded. *)
Theorem store_is_written_after_generation (w : World) (req : ChatRequest)
    (h : ChatRequest -> list event * HttpResponse) :
  In h [chat_js_post_chat w; server_fixed_post_chat w;
        simple_chat_post_chat w] ->
  existsb is_persist_call (fst (h req)) = true ->
  truthy (sessionId req) = true /\
  exists ok rest,
    fst (h req) =
      CallEmbedding (str (message req)) true :: CallVectorSearch 5 true
      :: CallGeneration true :: CallPersist ok :: rest.
Proof.
  intros [<- | [<- | [<- | []]]];
    unfold chat_js_post_chat, server_fixed_post_chat, simple_chat_post_chat;
    split_calls w; cbn; intros H; try discriminate H;
    (split; [first [reflexivity | assumption | apply negb_false_iff; assumption] | eauto]).
Qed.

Lemma store_is_written_after_generation_witness :
  truthy (sessionId dinner_request) = true /\
  exists ok rest,
    fst (server_fixed_post_chat world_store_down dinner_request) =
      CallEmbedding (str (message dinner_request)) true
      :: CallVectorSearch 5 true
      :: CallGeneration true :: CallPersist ok :: rest.
Proof.
  apply (store_is_written_after_generation world_store_down dinner_request
           (server_fixed_post_chat world_store_down)).
  - simpl. right. left. reflexivity.
  - reflexivity.
Defined.

(** Extra X6.  In every answer of the three handlers that carries a count
    of retrieved documents, the count is the number of citations in the
    provenance; the answer with an empty array instead of a count is the
    escalation of [routes/chat.js], with no citation. *)
Theorem count_matches_provenance (w : World) (req : ChatRequest)
    (h : ChatRequest -> list event * HttpResponse)
    (a : string) (prov : list ProvenanceItem) (rd : RetrievedDocsField) :
  In h [chat_js_post_chat w; server_fixed_post_chat w;
        simple_chat_post_chat w] ->
  body (snd (h req)) = BodyAnswer a prov rd ->
  match rd with
  | RdCount n => n = List.length prov
  | RdEmptyArray => prov = [] /\ a = escalation
  end.
Proof.
  intros [<- | [<- | [<- | []]]];
    unfold chat_js_post_chat, server_fixed_post_chat, simple_chat_post_chat;
    split_calls w; cbn; intros H; try discriminate H;
    injection H as <- <- <-; cbn; rewrite ?length_map; auto.
Qed.

Lemma count_matches_provenance_witness :
  2%nat = List.length (map cite_source [dinner_faq; dinner_set]).
Proof.
  apply (count_matches_provenance world_ok dinner_request
           (chat_js_post_chat world_ok)
           "Our Classic Gourmet dinner set has 24 pieces."
           (map cite_source [dinner_faq; dinner_set]) (RdCount 2)).
  - simpl. left. reflexivity.
  - reflexivity.
Defined.

(** ** More on [retrieval.ts] *)

(** Extra X7.  When the retrieval returns documents,
    [retrieveRelevantDocsWithThreshold] makes the same calls and returns, in
    the order retrieved, exactly the documents whose similarity is at least
    the threshold. *)
Theorem threshold_keeps_the_similar (w : World) (query : string) (topK : Z)
    (minSimilarity : Q) (t : list event) (docs : list RetrievedDocument) :
  retrieveRelevantDocs w query topK = (t, inr docs) ->
  exists kept,
    retrieveRelevantDocsWithThreshold w query topK minSimilarity =
      (t, inr kept) /\
    (forall d, In d kept <-> In d docs /\ minSimilarity <= similarity d) /\
    (exists dropped, Permutation docs (kept ++ dropped)) /\
    (List.length kept <= List.length docs)%nat /\
    (Forall (fun d => minSimilarity <= similarity d) docs -> kept = docs).
Proof.
  intros Hr.
  exists (filter (fun doc => Qle_bool minSimilarity (similarity doc)) docs).
  split; [|split; [|split; [|split]]].
  - unfold retrieveRelevantDocsWithThreshold. rewrite Hr. cbn.
    now rewrite app_nil_r.
  - intros d. rewrite filter_In, Qle_bool_iff. tauto.
  - exists (filter (fun doc => negb (Qle_bool minSimilarity (similarity doc)))
              docs).
    clear Hr. induction docs as [|d docs IH]; cbn; [constructor|].
    destruct (Qle_bool minSimilarity (similarity d)); cbn.
    + now constructor.
    + now apply Permutation_cons_app.
  - apply filter_length_le.
  - intros Hall. clear Hr. induction Hall as [|d docs Hd _ IH]; cbn.
    + reflexivity.
    + apply Qle_bool_iff in Hd. rewrite Hd. now rewrite IH.
Qed.

Lemma threshold_keeps_the_similar_witness :
  exists kept,
    retrieveRelevantDocsWithThreshold world_ok dinner_query 5 (9 # 10) =
      ([CallEmbedding dinner_query true; CallVectorSearch 5 true],
       inr kept) /\
    (forall d, In d kept <->
               In d [dinner_faq; dinner_set] /\ 9 # 10 <= similarity d) /\
    (exists dropped, Permutation [dinner_faq; dinner_set] (kept ++ dropped)) /\
    (List.length kept <= List.length [dinner_faq; dinner_set])%nat /\
    (Forall (fun d => 9 # 10 <= similarity d) [dinner_faq; dinner_set] ->
     kept = [dinner_faq; dinner_set]).
Proof.
  apply (threshold_keeps_the_similar world_ok dinner_query 5 (9 # 10)).
  reflexivity.
Defined.

(** Extra X8.  When the retrieval throws, [searchProducts] and
    [retrieveRelevantDocsWithThreshold] throw the same error after one more
    log line, and call nothing else. *)
Theorem retrieval_error_is_passed_on (w : World) (query : string) (topK : Z)
    (minSimilarity : Q) (t : list event) (e : string) :
  retrieveRelevantDocs w query topK = (t, inl e) ->
  searchProducts w query topK =
    (t ++ [LogError "Error searching products:"], inl e) /\
  retrieveRelevantDocsWithThreshold w query topK minSimilarity =
    (t ++ [LogError "Error retrieving docs with threshold:"], inl e).
Proof.
  intros Hr. unfold searchProducts, retrieveRelevantDocsWithThreshold.
  rewrite Hr. split; reflexivity.
Qed.

Lemma retrieval_error_is_passed_on_witness :
  searchProducts world_embedding_down dinner_query 10 =
    ([CallEmbedding dinner_query false;
      LogError "Error getting embedding:";
      LogError "Error retrieving relevant docs:"]
       ++ [LogError "Error searching products:"],
     inl "Failed to retrieve relevant documents: Failed to get embedding: OpenAI embedding error") /\
  retrieveRelevantDocsWithThreshold world_embedding_down dinner_query 10
    (7 # 10) =
    ([CallEmbedding dinner_query false;
      LogError "Error getting embedding:";
      LogError "Error retrieving relevant docs:"]
       ++ [LogError "Error retrieving docs with threshold:"],
     inl "Failed to retrieve relevant documents: Failed to get embedding: OpenAI embedding error").
Proof.
  apply (retrieval_error_is_passed_on world_embedding_down dinner_query 10).
  reflexivity.
Defined.

(** Extra X9.  [validateRetrieval] and [validateApiKey] never throw: each
    returns [true] when its probe call succeeds and [false] when it
    fails. *)
Theorem validators_never_throw (w : World) :
  (exists b, snd (validateRetrieval w) = inr b /\
     (b = true <->
      exists docs, snd (retrieveRelevantDocs w "test query" 1) = inr docs)) /\
  (exists b, snd (validateApiKey w) = inr b /\
     (b = true <-> exists v, embeddings_api w "test" = Some v)).
Proof.
  split.
  - unfold validateRetrieval.
    destruct (retrieveRelevantDocs w "test query" 1) as [t [e|docs]]; cbn.
    + exists false. split; [reflexivity|].
      split; [discriminate | intros [? H]; discriminate H].
    + exists true. split; [reflexivity|]. split; eauto.
  - unfold validateApiKey, getEmbedding.
    destruct (embeddings_api w "test") as [v|]; cbn.
    + exists true. split; [reflexivity|]. split; eauto.
    + exists false. split; [reflexivity|].
      split; [discriminate | intros [? H]; discriminate H].
Qed.



Lemma group_step_snippets (m : ProductMap) (d : RetrievedDocument) :
  List.length (all_snippets (map_values (group_step m d))) =
  S (List.length (all_snippets (map_values m))).
Proof.
  unfold group_step, all_snippets, map_values.
  destruct (map_has m (product_id d)) eqn:Hhas; cbn [negb].
  - destruct (map_has_true m _ Hhas) as (m1 & v & m2 & -> & _ & Hget & Hset).
    rewrite Hget, Hset.
    rewrite !map_app, !flat_map_app, !length_app. cbn.
    rewrite !length_app. cbn. lia.
  - destruct (map_has_false m _ Hhas) as [Hnot Hset].
    rewrite Hset, map_get_appended by exact Hnot.
    rewrite map_set_appended by exact Hnot.
    rewrite !map_app, !flat_map_app, !length_app. cbn. lia.
Qed.

Lemma group_by_product_snippets (docs : list RetrievedDocument) :
  List.length (all_snippets (map_values (group_by_product docs))) =
  List.length docs.
Proof.
  unfold group_by_product.
  assert (Hgen : forall rest m,
    List.length (all_snippets (map_values (fold_left group_step rest m))) =
    (List.length (all_snippets (map_values m)) + List.length rest)%nat).
  { induction rest as [|d rest IH]; intros m; cbn [fold_left List.length].
    - lia.
    - rewrite IH, group_step_snippets. lia. }
  now rewrite Hgen.
Qed.

(** Extra X11.  When the retrieval returns documents, the hits of
    [searchProducts] leave no document out: every product retrieved has a
    hit, no hit is without snippet, and the snippets of all the hits are as
    many as the documents. *)
Theorem searchProducts_keeps_every_document (w : World) (query : string)
    (topK : Z) (t : list event) (docs : list RetrievedDocument) :
  retrieveRelevantDocs w query topK = (t, inr docs) ->
  exists hits,
    searchProducts w query topK = (t, inr hits) /\
    (forall d, In d docs -> In (product_id d) (map hit_product_id hits)) /\
    (forall h, In h hits -> relevant_snippets h <> []) /\
    List.length (all_snippets hits) = List.length docs /\
    (List.length hits <= List.length docs)%nat.
Proof.
  intros Hr. exists (rank_products docs).
  assert (Hperm : Permutation (map_values (group_by_product docs))
                    (rank_products docs))
    by apply sort_by_similarity_perm.
  destruct (group_by_product_grouped docs) as (_ & Hok & Hcov).
  assert (Hkeys : map hit_product_id (map_values (group_by_product docs)) =
                  map fst (group_by_product docs)).
  { unfold map_values. rewrite map_map. apply map_ext_in.
    intros kv Hin. eapply Forall_forall in Hok; eauto. apply Hok. }
  assert (Hnonempty : forall h, In h (rank_products docs) ->
                                relevant_snippets h <> []).
  { intros h Hin.
    eapply Permutation_in in Hin; [|apply Permutation_sym, Hperm].
    unfold map_values in Hin. apply in_map_iff in Hin as ([k v] & <- & Hin).
    eapply Forall_forall in Hok; eauto.
    destruct Hok as (_ & _ & [Hmax _]). cbn [snd] in *.
    intros Hnil. rewrite Hnil in Hmax. exact Hmax. }
  assert (Hcount : List.length (all_snippets (rank_products docs)) =
                   List.length docs).
  { rewrite <- (group_by_product_snippets docs). unfold all_snippets.
    apply Permutation_length, Permutation_flat_map, Permutation_sym, Hperm. }
  split; [|split; [|split; [|split]]].
  - unfold searchProducts. rewrite Hr. cbn. now rewrite app_nil_r.
  - intros d Hin.
    eapply Permutation_in; [apply Permutation_map, Hperm|].
    rewrite Hkeys. now apply Hcov.
  - exact Hnonempty.
  - exact Hcount.
  - rewrite <- Hcount. unfold all_snippets.
    clear Hcount Hperm. induction (rank_products docs) as [|h hits IH]; cbn.
    + lia.
    + rewrite length_app.
      assert (relevant_snippets h <> []) by (apply Hnonempty; now left).
      assert (List.length hits <= List.length (flat_map relevant_snippets hits))%nat
        by (apply IH; intros h' Hh'; apply Hnonempty; now right).
      destruct (relevant_snippets h); [congruence | cbn; lia].
Qed.

Lemma searchProducts_keeps_every_document_witness :
  exists hits,
    searchProducts world_ok dinner_query 10 =
      ([CallEmbedding dinner_query true; CallVectorSearch 10 true],
       inr hits) /\
    (forall d, In d [dinner_faq; dinner_set] ->
               In (product_id d) (map hit_product_id hits)) /\
    (forall h, In h hits -> relevant_snippets h <> []) /\
    List.length (all_snippets hits) = List.length [dinner_faq; dinner_set] /\
    (List.length hits <= List.length [dinner_faq; dinner_set])%nat.
Proof.
  apply (searchProducts_keeps_every_document world_ok dinner_query 10).
  reflexivity.
Defined.

(** ** The two context builders *)

Local Open Scope string_scope.

Lemma buildContextText_with_source_ids_witness :
  buildContextText [dinner_faq; dinner_spec] =
  spec_context_text spec_provenance_tag [dinner_faq; dinner_spec].
Proof.
  apply (buildContextText_with_source_ids [dinner_faq; dinner_spec]).
  repeat constructor.
Defined.

(** Extra X13.  The context that [simple-chat.ts] builds inline is what
    [buildContextText] builds from the same documents with their source ids
    taken away; the two agree on documents that have no source id. *)
Theorem simple_context_drops_source_ids (docs : list RetrievedDocument) :
  simple_chat_context docs = buildContextText (map without_source_id docs) /\
  (Forall (fun d => truthy (source_id d) = false) docs ->
   simple_chat_context docs = buildContextText docs).
Proof.
  unfold simple_chat_context, buildContextText. split.
  - rewrite map_map. reflexivity.
  - intros Hall. f_equal. apply map_ext_in. intros d Hin.
    eapply Forall_forall in Hall; eauto.
    unfold provenance_tag. rewrite Hall. reflexivity.
Qed.

Local Open Scope list_scope.

(** ** [retrieveDocsByProduct] *)

Module ProductDocsFacts.
Import ProductDocs.

Lemma insert_newest_perm (x : EmbeddingRow) (l : list EmbeddingRow) :
  Permutation (x :: l) (insert_newest x l).
Proof.
  induction l as [|y l IH]; cbn.
  - reflexivity.
  - destruct (Nat.leb (row_created_at y) (row_created_at x)).
    + reflexivity.
    + rewrite perm_swap. now constructor.
Qed.

Lemma newest_first_perm (l : list EmbeddingRow) :
  Permutation l (newest_first l).
Proof.
  induction l as [|x l IH]; cbn.
  - constructor.
  - rewrite <- insert_newest_perm. now constructor.
Qed.

Lemma insert_newest_sorted (x : EmbeddingRow) (l : list EmbeddingRow) :
  StronglySorted (fun a b => (row_created_at b <= row_created_at a)%nat) l ->
  StronglySorted (fun a b => (row_created_at b <= row_created_at a)%nat)
    (insert_newest x l).
Proof.
  induction l as [|y l IH]; cbn; intros Hs.
  - repeat constructor.
  - inversion_clear Hs as [|? ? Hl Hy].
    destruct (Nat.leb_spec (row_created_at y) (row_created_at x)).
    + constructor; [now constructor|].
      constructor; [assumption|].
      eapply Forall_impl; [|exact Hy]. cbn. intros z Hz. lia.
    + constructor; [now apply IH|].
      eapply Permutation_Forall; [apply insert_newest_perm|].
      constructor; [lia | exact Hy].
Qed.

Lemma newest_first_sorted (l : list EmbeddingRow) :
  StronglySorted (fun a b => (row_created_at b <= row_created_at a)%nat)
    (newest_first l).
Proof.
  induction l as [|x l IH]; cbn.
  - constructor.
  - now apply insert_newest_sorted.
Qed.

(** Extra X14.  When the store answers, [retrieveDocsByProduct] returns the
    rows of the product, newest first, each with the similarity 1; a truthy
    source type keeps the rows of that type only, and an empty source type
    is no filter at all. *)
Theorem docs_by_product_are_the_product_rows (table : list EmbeddingRow)
    (productId : string) (sourceType : option string) :
  exists rows,
    retrieveDocsByProduct table None productId sourceType =
      ([], inr (map as_document rows)) /\
    StronglySorted
      (fun a b => (row_created_at b <= row_created_at a)%nat) rows /\
    (forall r, In r rows <->
       In r table /\ row_product_id r = productId /\
       (truthy sourceType = true -> row_source_type r = str sourceType)) /\
    Forall (fun d => product_id d = productId /\ similarity d = 1)
      (map as_document rows) /\
    retrieveDocsByProduct table None productId (Some "") =
      retrieveDocsByProduct table None productId None.
Proof.
  exists (newest_first (product_rows table productId sourceType)).
  assert (Hin : forall r,
    In r (newest_first (product_rows table productId sourceType)) <->
    In r table /\ row_product_id r = productId /\
    (truthy sourceType = true -> row_source_type r = str sourceType)).
  { intros r. split.
    - intros H.
      eapply Permutation_in in H; [|apply Permutation_sym, newest_first_perm].
      unfold product_rows in H. destruct (truthy sourceType).
      + apply filter_In in H as [H Ht]. apply filter_In in H as [H Hp].
        apply String.eqb_eq in Ht, Hp. auto.
      + apply filter_In in H as [H Hp]. apply String.eqb_eq in Hp.
        repeat split; auto. discriminate.
    - intros (Ht & Hp & Hs).
      eapply Permutation_in; [apply newest_first_perm|].
      unfold product_rows. destruct (truthy sourceType).
      + apply filter_In. split; [apply filter_In; split|].
        * exact Ht.
        * now apply String.eqb_eq.
        * apply String.eqb_eq. now apply Hs.
      + apply filter_In. split; [exact Ht | now apply String.eqb_eq]. }
  split; [reflexivity|]. split; [apply newest_first_sorted|].
  split; [exact Hin|]. split; [|reflexivity].
  apply Forall_forall. intros d Hd.
  apply in_map_iff in Hd as (r & <- & Hr). apply Hin in Hr as (_ & Hp & _).
  split; [exact Hp | reflexivity].
Qed.

End ProductDocsFacts.

(** ** More on [chunkText] *)

Module IngestMore.
Import Ingest IngestFacts.

Lemma trim_start_head (s : text) :
  match trim_start s with
  | [] => True
  | c :: _ => is_ws c = false
  end.
Proof.
  induction s as [|c s IH]; cbn; [exact I|].
  destruct (is_ws c) eqn:Hc; [exact IH | exact Hc].
Qed.

Lemma trim_start_fixed (s : text) :
  match s with [] => True | c :: _ => is_ws c = false end ->
  trim_start s = s.
Proof. destruct s as [|c s]; cbn; [reflexivity | now intros ->]. Qed.

Lemma trim_end_head (s : text) (x : unit16) (r : text) :
  trim_end s = x :: r -> exists r', s = x :: r'.
Proof.
  destruct s as [|c s]; cbn; [discriminate|].
  destruct (trim_end s).
  - destruct (is_ws c); [discriminate|]. intros [= <- <-]. eauto.
  - intros [= <- <-]. eauto.
Qed.

Lemma trim_end_idempotent (s : text) : trim_end (trim_end s) = trim_end s.
Proof.
  induction s as [|c s IH]; cbn; [reflexivity|].
  destruct (trim_end s) as [|k kept] eqn:Hk.
  - destruct (is_ws c) eqn:Hc; cbn; [reflexivity | now rewrite Hc].
  - cbn [trim_end] in *. fold (trim_end (k :: kept)). rewrite IH. reflexivity.
Qed.

Lemma trim_idempotent (s : text) : trim (trim s) = trim s.
Proof.
  unfold trim.
  rewrite (trim_start_fixed (trim_end (trim_start s))).
  - apply trim_end_idempotent.
  - destruct (trim_end (trim_start s)) as [|x r] eqn:Hx; [exact I|].
    apply trim_end_head in Hx as [r' Hx].
    pose proof (trim_start_head s) as Hh. now rewrite Hx in Hh.
Qed.

Lemma chunk_loop_trimmed (words : list text) (chunkSize overlap : Z) :
  forall (fuel : nat) (i : Z) (chunks result : list text),
    Forall (fun c => c <> [] /\ trim c = c) chunks ->
    chunk_loop fuel words chunkSize overlap i chunks = Some result ->
    Forall (fun c => c <> [] /\ trim c = c) result.
Proof.
  induction fuel as [|fuel IH]; intros i chunks result Hacc.
  - rewrite chunk_loop_stop.
    destruct (Z.ltb i (Z.of_nat (List.length words))); [discriminate|].
    now intros [= <-].
  - rewrite chunk_loop_step.
    destruct (Z.ltb i (Z.of_nat (List.length words)));
      [|now intros [= <-]].
    apply IH.
    destruct (Nat.ltb 0 (List.length (chunk_at words chunkSize i))) eqn:Hne;
      [|exact Hacc].
    apply Forall_app. split; [exact Hacc|].
    constructor; [|constructor]. split.
    + now apply nonempty_length.
    + apply trim_idempotent.
Qed.

(** Extra X16.  Every chunk that [chunkText] returns is non-empty and has no
    white space at its start or at its end. *)
Theorem chunks_are_trimmed (fuel : nat) (t : text) (chunkSize overlap : Z)
    (chunks : list text) :
  chunkText fuel t chunkSize overlap = Some chunks ->
  Forall (fun c => c <> [] /\ trim c = c) chunks.
Proof.
  unfold chunkText. apply chunk_loop_trimmed. constructor.
Qed.

Lemma chunks_are_trimmed_witness :
  Forall (fun c => c <> [] /\ trim c = c)
    [of_string "white"; of_string "plates"; of_string "plates and";
     of_string "and cups"; of_string "cups"].
Proof.
  apply (chunks_are_trimmed 6 (of_string "white  plates and cups ") 2 1).
  reflexivity.
Defined.

(** Extra X17.  A text of at most [chunkSize - overlap] space-separated
    pieces gives one chunk, the trimmed text, or no chunk when the text is
    blank. *)
Theorem short_text_is_one_chunk (fuel : nat) (t : text)
    (chunkSize overlap : Z) :
  (0 <= overlap)%Z ->
  (Z.of_nat (List.length (split_by is_space t)) <= chunkSize - overlap)%Z ->
  chunkText (S fuel) t chunkSize overlap =
    Some (if Nat.ltb 0 (List.length (trim t)) then [trim t] else []).
Proof.
  intros Hov Hlen. unfold chunkText.
  set (words := split_by is_space t) in *.
  assert (Hpos : (0 < List.length words)%nat).
  { unfold words. rewrite split_by_length. lia. }
  rewrite chunk_loop_step.
  destruct (Z.ltb_spec 0 (Z.of_nat (List.length words))); [|lia].
  assert (Hchunk : chunk_at words chunkSize 0 = trim t).
  { unfold chunk_at. rewrite slice_window by lia.
    cbn [Z.to_nat skipn]. rewrite firstn_all2 by lia.
    unfold words. now rewrite join_split. }
  rewrite Hchunk. cbn [app].
  destruct fuel; [rewrite chunk_loop_stop | rewrite chunk_loop_step];
    destruct (Z.ltb_spec (0 + (chunkSize - overlap))
                (Z.of_nat (List.length words))); try lia; reflexivity.
Qed.

Lemma short_text_is_one_chunk_witness :
  chunkText 1 (of_string " fine bone china ") 500 100 =
    Some (if Nat.ltb 0 (List.length (trim (of_string " fine bone china ")))
          then [trim (of_string " fine bone china ")] else []).
Proof.
  apply (short_text_is_one_chunk 0 (of_string " fine bone china ") 500 100).
  - lia.
  - vm_compute. discriminate.
Defined.

Lemma chunkText_diverges_witness :
  chunkText 1000 (of_string "fine bone china") 100 100 = None.
Proof.
  apply (chunkText_diverges 1000 (of_string "fine bone china") 100 100).
  lia.
Defined.

End IngestMore.

(** ** The reading loop of [chatCompletionStream] *)

Module StreamFacts.
Import Ingest IngestFacts Stream.

Lemma split_by_last (p : unit16 -> bool) (a b : text) :
  split_by p (a ++ b) =
  removelast (split_by p a) ++ split_by p (last (split_by p a) [] ++ b).
Proof.
  induction a as [|c a IH].
  - reflexivity.
  - cbn [app split_by]. rewrite IH.
    destruct (split_by_nonempty p a) as (piece & pieces & Ha).
    rewrite Ha in *. destruct (p c) eqn:Hc.
    + reflexivity.
    + destruct pieces as [|piece' pieces].
      * cbn [removelast last app].
        change ((c :: piece) ++ b) with (c :: (piece ++ b)).
        cbn [split_by]. rewrite Hc. reflexivity.
      * reflexivity.
Qed.

Section Reader.
Variable delta_content : text -> option text.

Lemma read_lines_app (a b : list text) :
  read_lines delta_content (a ++ b) =
  if snd (read_lines delta_content a) then read_lines delta_content a
  else (fst (read_lines delta_content a) ++ fst (read_lines delta_content b),
        snd (read_lines delta_content b)).
Proof.
  induction a as [|line a IH]; cbn [app read_lines].
  - now destruct (read_lines delta_content b).
  - destruct (starts_with data_prefix line); [|exact IH].
    destruct (text_eqb (skipn 6 line) done_marker); [reflexivity|].
    rewrite IH.
    destruct (read_lines delta_content a) as [out fin]. cbn [fst snd].
    destruct fin; [reflexivity|].
    destruct (read_lines delta_content b) as [out' fin']. cbn [fst snd].
    now destruct (delta_content (skipn 6 line)).
Qed.

Lemma stream_loop_one (value buffer : text) :
  stream_loop delta_content [value] buffer =
  fst (read_lines delta_content
         (removelast (split_by is_newline (buffer ++ value)))).
Proof.
  cbn [stream_loop].
  destruct (snd (read_lines delta_content _)); [reflexivity|].
  apply app_nil_r.
Qed.

Lemma stream_loop_joined (reads : list text) (value buffer : text) :
  stream_loop delta_content (value :: reads) buffer =
  fst (read_lines delta_content
         (removelast
            (split_by is_newline (buffer ++ value ++ concat reads)))).
Proof.
  revert value buffer. induction reads as [|next reads IH];
    intros value buffer.
  - cbn [concat]. rewrite app_nil_r. apply stream_loop_one.
  - change (stream_loop delta_content (value :: next :: reads) buffer)
      with (let lines := split_by is_newline (buffer ++ value) in
            let out := read_lines delta_content (removelast lines) in
            if snd out then fst out
            else fst out ++
                 stream_loop delta_content (next :: reads) (last lines [])).
    cbn zeta. rewrite IH. cbn [concat].
    rewrite (app_assoc buffer value).
    rewrite (split_by_last is_newline (buffer ++ value)
               (next ++ concat reads)).
    set (lines := split_by is_newline (buffer ++ value)).
    destruct (split_by_nonempty is_newline
                (last lines [] ++ next ++ concat reads))
      as (piece & pieces & Hs).
    rewrite removelast_app by (rewrite Hs; discriminate).
    rewrite read_lines_app.
    now destruct (snd (read_lines delta_content (removelast lines))).
Qed.

(** Extra X18.  What [chatCompletionStream] hands to [onChunk] does not
    depend on how the network cuts the stream into reads: any sequence of
    reads gives what the one read of their concatenation gives. *)
Theorem stream_is_independent_of_the_reads (reads : list text) :
  stream_loop delta_content reads [] =
  stream_loop delta_content [concat reads] [].
Proof.
  destruct reads as [|value reads].
  - reflexivity.
  - rewrite stream_loop_joined, stream_loop_one. reflexivity.
Qed.

Lemma split_terminated (lines : list text) (rest : text) :
  split_by is_newline (terminated lines ++ rest) =
  flat_map (split_by is_newline) lines ++ split_by is_newline rest.
Proof.
  unfold terminated. induction lines as [|line lines IH]; cbn [map concat flat_map].
  - reflexivity.
  - rewrite <- !app_assoc. cbn [app].
    rewrite split_by_app by reflexivity. now rewrite IH, app_assoc.
Qed.

Lemma stream_of_terminated (lines : list text) (rest : text) :
  stream_loop delta_content [terminated lines ++ rest] [] =
  fst (read_lines delta_content
         (flat_map (split_by is_newline) lines
          ++ removelast (split_by is_newline rest))).
Proof.
  rewrite stream_loop_one. cbn [app]. rewrite split_terminated.
  destruct (split_by_nonempty is_newline rest) as (piece & pieces & Hs).
  rewrite removelast_app by (rewrite Hs; discriminate). reflexivity.
Qed.

(** Extra X19.  Once a line [data: [DONE]] has come, nothing that follows
    it in the stream is handed to [onChunk]. *)
Theorem nothing_is_read_after_done (lines : list text) (rest : text) :
  stream_loop delta_content
    [terminated lines ++ (data_prefix ++ done_marker) ++ newline :: rest] [] =
  stream_loop delta_content [terminated lines] [].
Proof.
  rewrite <- (app_nil_r (terminated lines)) at 2.
  rewrite !stream_of_terminated.
  rewrite split_by_app by reflexivity.
  destruct (split_by_nonempty is_newline rest) as (piece & pieces & Hs).
  rewrite removelast_app by (rewrite Hs; discriminate).
  cbn [split_by removelast]. rewrite app_nil_r.
  rewrite read_lines_app.
  destruct (read_lines delta_content (flat_map (split_by is_newline) lines))
    as [out fin].
  cbn [fst snd]. destruct fin; [reflexivity|].
  change (split_by is_newline (data_prefix ++ done_marker))
    with [data_prefix ++ done_marker].
  cbn [app]. 
  change (read_lines delta_content
            ((data_prefix ++ done_marker) :: removelast (piece :: pieces)))
    with (@nil text, true).
  cbn [fst]. apply app_nil_r.
Qed.

(** Extra X20.  A last line that no line feed follows is never handed to
    [onChunk]: the stream with it gives what the stream without it
    gives. *)
Theorem unterminated_line_is_dropped (lines : list text) (tail : text) :
  count is_newline tail = 0%nat ->
  stream_loop delta_content [terminated lines ++ tail] [] =
  stream_loop delta_content [terminated lines] [].
Proof.
  intros Htail.
  rewrite <- (app_nil_r (terminated lines)) at 2.
  rewrite !stream_of_terminated.
  pose proof (split_by_length is_newline tail) as Hlen.
  rewrite Htail in Hlen.
  destruct (split_by is_newline tail) as [|piece [|piece' pieces]];
    try discriminate Hlen.
  reflexivity.
Qed.

End Reader.

Lemma unterminated_line_is_dropped_witness :
  stream_loop every_payload
    [terminated [of_string "data: fine"] ++ of_string "data: china"] [] =
  stream_loop every_payload [terminated [of_string "data: fine"]] [].
Proof.
  apply (unterminated_line_is_dropped every_payload
           [of_string "data: fine"] (of_string "data: china")).
  reflexivity.
Defined.

End StreamFacts.

(** ** More on [routes/messages.ts] *)

Module MessageEditsFacts.
Import Messages MessagesFacts MessageEdits.

(** Extra X21.  Without a user, each of the four routes answers 401 and
    leaves the tables as they were. *)
Theorem anonymous_requests_are_refused (db : Db) (store_error : option string)
    (user : option string) (cid : string) (mid : nat)
    (role content : option string) :
  truthy user = false ->
  status (get_conversation db store_error user cid) = 401%nat /\
  (let r := post_message db store_error
              {| userId := user; conversationId := Some cid;
                 body_role := role; body_content := content |} in
   status (fst r) = 401%nat /\ snd r = db) /\
  (let r := put_message db store_error
              {| update_user := user; update_id := mid;
                 update_content := content |} in
   status (fst r) = 401%nat /\ snd r = db) /\
  (let r := delete_message db store_error user mid in
   delete_status (fst r) = 401%nat /\ snd r = db).
Proof.
  intros Hu.
  unfold get_conversation, post_message, put_message, delete_message.
  cbn [userId update_user]. rewrite Hu. cbn. auto.
Qed.

Lemma anonymous_requests_are_refused_witness :
  status (get_conversation sample_db None None "conv-1") = 401%nat /\
  (let r := post_message sample_db None
              {| userId := None; conversationId := Some "conv-1";
                 body_role := Some "user"; body_content := Some "Hi" |} in
   status (fst r) = 401%nat /\ snd r = sample_db) /\
  (let r := put_message sample_db None
              {| update_user := None; update_id := 0;
                 update_content := Some "Hi" |} in
   status (fst r) = 401%nat /\ snd r = sample_db) /\
  (let r := delete_message sample_db None None 0 in
   delete_status (fst r) = 401%nat /\ snd r = sample_db).
Proof.
  apply (anonymous_requests_are_refused sample_db None None "conv-1" 0
           (Some "user") (Some "Hi")).
  reflexivity.
Defined.

Lemma messageCheck_none (db : Db) (u : string) (mid : nat) :
  (forall m, In m (messages db) -> id m = mid -> owned_by db u m = false) ->
  messageCheck db mid u = None.
Proof.
  intros Hforeign. unfold messageCheck.
  replace (filter _ (messages db)) with (@nil MessageRow); [reflexivity|].
  symmetry. induction (messages db) as [|m l IH]; [reflexivity|]. cbn.
  destruct (Nat.eqb_spec (id m) mid) as [Heq|Hne]; cbn.
  - rewrite (Hforeign m (or_introl eq_refl) Heq).
    apply IH. intros m' Hin. apply Hforeign. now right.
  - apply IH. intros m' Hin. apply Hforeign. now right.
Qed.

(** Extra X22.  A user can neither change nor delete a message of a
    conversation that is not theirs: when no message with the given id
    belongs to a conversation of the user, [PUT /:id] and [DELETE /:id]
    answer 404 and leave the tables as they were. *)
Theorem foreign_message_cannot_be_edited (db : Db)
    (store_error : option string) (u : string) (mid : nat)
    (content : option string) :
  u <> "" ->
  truthy content = true ->
  (forall m, In m (messages db) -> id m = mid -> owned_by db u m = false) ->
  (let r := put_message db store_error
              {| update_user := Some u; update_id := mid;
                 update_content := content |} in
   status (fst r) = 404%nat /\ snd r = db) /\
  (let r := delete_message db store_error (Some u) mid in
   delete_status (fst r) = 404%nat /\ snd r = db).
Proof.
  intros Hu Hc Hforeign.
  unfold put_message, delete_message. cbn [update_user update_content update_id str].
  rewrite (truthy_nonempty u Hu), Hc. cbn [negb].
  rewrite (messageCheck_none db u mid Hforeign). cbn. auto.
Qed.

Lemma foreign_message_cannot_be_edited_witness :
  (let r := put_message sample_db None
              {| update_user := Some "bob"; update_id := 0;
                 update_content := Some "changed" |} in
   status (fst r) = 404%nat /\ snd r = sample_db) /\
  (let r := delete_message sample_db None (Some "bob") 0 in
   delete_status (fst r) = 404%nat /\ snd r = sample_db).
Proof.
  apply (foreign_message_cannot_be_edited sample_db None "bob" 0
           (Some "changed")).
  - discriminate.
  - reflexivity.
  - intros m [<- | []] _. reflexivity.
Defined.

Lemma conversationCheck_none (db : Db) (u cid : string) :
  (forall c, In c (conversations db) -> conv_id c = cid -> user_id c <> u) ->
  conversationCheck db cid u = None.
Proof.
  intros Hforeign. unfold conversationCheck.
  replace (filter _ (conversations db)) with (@nil ConversationRow);
    [reflexivity|].
  symmetry. induction (conversations db) as [|c l IH]; [reflexivity|]. cbn.
  destruct (String.eqb_spec (conv_id c) cid) as [Heq|Hne]; cbn.
  - destruct (String.eqb_spec (user_id c) u) as [Hu|_].
    + exfalso. exact (Hforeign c (or_introl eq_refl) Heq Hu).
    + apply IH. intros c' Hin. apply Hforeign. now right.
  - apply IH. intros c' Hin. apply Hforeign. now right.
Qed.

(** Extra X23.  A user can neither read nor extend a conversation that is
    not theirs: when no conversation with the given id has this user,
    [GET /conversation/:conversationId] answers 404 with no message, and a
    [POST /] with a valid body answers 404 and inserts nothing. *)
Theorem foreign_conversation_is_closed (db : Db)
    (store_error : option string) (u cid role content : string) :
  u <> "" -> cid <> "" -> content <> "" ->
  includes valid_roles role = true ->
  (forall c, In c (conversations db) -> conv_id c = cid -> user_id c <> u) ->
  get_conversation db store_error (Some u) cid =
    {| status := 404; body := ErrorBody "Conversation not found" |} /\
  post_message db store_error
    {| userId := Some u; conversationId := Some cid;
       body_role := Some role; body_content := Some content |} =
    ({| status := 404; body := ErrorBody "Conversation not found" |}, db).
Proof.
  intros Hu Hcid Hcontent Hrole Hforeign.
  unfold get_conversation, post_message.
  cbn [userId conversationId body_role body_content str].
  rewrite (truthy_nonempty u Hu), (truthy_nonempty cid Hcid),
    (truthy_nonempty content Hcontent), Hrole.
  assert (Hr : truthy (Some role) = true).
  { destruct role; [discriminate Hrole | reflexivity]. }
  rewrite Hr. cbn [negb orb].
  rewrite (conversationCheck_none db u cid Hforeign). split; reflexivity.
Qed.

Lemma foreign_conversation_is_closed_witness :
  get_conversation sample_db None (Some "bob") "conv-1" =
    {| status := 404; body := ErrorBody "Conversation not found" |} /\
  post_message sample_db None
    {| userId := Some "bob"; conversationId := Some "conv-1";
       body_role := Some "user"; body_content := Some "Hello" |} =
    ({| status := 404; body := ErrorBody "Conversation not found" |},
     sample_db).
Proof.
  apply (foreign_conversation_is_closed sample_db None "bob" "conv-1"
           "user" "Hello").
  - discriminate.
  - discriminate.
  - discriminate.
  - reflexivity.
  - intros c [<- | [<- | []]]; simpl; intros H; discriminate.
Defined.


Lemma insert_by_time_perm (x : MessageRow) (l : list MessageRow) :
  Permutation (x :: l) (insert_by_time x l).
Proof.
  induction l as [|y l IH]; cbn.
  - reflexivity.
  - destruct (Nat.leb (created_at x) (created_at y)).
    + reflexivity.
    + rewrite perm_swap. now constructor.
Qed.

Lemma order_by_created_at_perm (l : list MessageRow) :
  Permutation l (order_by_created_at l).
Proof.
  induction l as [|x l IH]; cbn.
  - constructor.
  - rewrite <- insert_by_time_perm. now constructor.
Qed.

Lemma insert_by_time_sorted (x : MessageRow) (l : list MessageRow) :
  StronglySorted (fun a b => (created_at a <= created_at b)%nat) l ->
  StronglySorted (fun a b => (created_at a <= created_at b)%nat)
    (insert_by_time x l).
Proof.
  induction l as [|y l IH]; cbn; intros Hs.
  - repeat constructor.
  - inversion_clear Hs as [|? ? Hl Hy].
    destruct (Nat.leb_spec (created_at x) (created_at y)).
    + constructor; [now constructor|].
      constructor; [assumption|].
      eapply Forall_impl; [|exact Hy]. cbn. intros z Hz. lia.
    + constructor; [now apply IH|].
      eapply Permutation_Forall; [apply insert_by_time_perm|].
      constructor; [lia | exact Hy].
Qed.

Lemma order_by_created_at_sorted (l : list MessageRow) :
  StronglySorted (fun a b => (created_at a <= created_at b)%nat)
    (order_by_created_at l).
Proof.
  induction l as [|x l IH]; cbn.
  - constructor.
  - now apply insert_by_time_sorted.
Qed.

Lemma get_conversation_ok (db : Db) (store_error : option string)
    (user : option string) (cid : string) :
  status (get_conversation db store_error user cid) = 200%nat ->
  get_conversation db store_error user cid =
    {| status := 200;
       body := ListBody
         (map view
            (order_by_created_at
               (filter (fun m => String.eqb (conversation_id m) cid)
                  (messages db)))) |}.
Proof.
  unfold get_conversation.
  destruct (truthy user); cbn [negb]; [|discriminate].
  destruct (conversationCheck db cid (str user)); [|discriminate].
  destruct store_error; [discriminate | reflexivity].
Qed.

(** Extra X24.  A history that [GET /conversation/:conversationId] answers
    with 200 holds the messages of that conversation, each once and no
    other, from the oldest to the newest. *)
Theorem history_is_the_conversation_in_order (db : Db)
    (store_error : option string) (user : option string) (cid : string) :
  status (get_conversation db store_error user cid) = 200%nat ->
  exists rows,
    body (get_conversation db store_error user cid) =
      ListBody (map view rows) /\
    Permutation rows
      (filter (fun m => String.eqb (conversation_id m) cid) (messages db)) /\
    StronglySorted (fun a b => (created_at a <= created_at b)%nat) rows /\
    StronglySorted (fun a b => (timestamp a <= timestamp b)%nat)
      (map view rows).
Proof.
  intros Hok. rewrite (get_conversation_ok _ _ _ _ Hok). cbn [body].
  eexists. split; [reflexivity|]. split; [|split].
  - apply Permutation_sym, order_by_created_at_perm.
  - apply order_by_created_at_sorted.
  - pose proof (order_by_created_at_sorted
                  (filter (fun m => String.eqb (conversation_id m) cid)
                     (messages db))) as Hs.
    induction Hs as [|m l _ IH Hm]; cbn [map]; constructor.
    + exact IH.
    + apply Forall_map. exact Hm.
Qed.

Lemma history_is_the_conversation_in_order_witness :
  exists rows,
    body (get_conversation sample_db None (Some "alice") "conv-1") =
      ListBody (map view rows) /\
    Permutation rows
      (filter (fun m => String.eqb (conversation_id m) "conv-1")
         (messages sample_db)) /\
    StronglySorted (fun a b => (created_at a <= created_at b)%nat) rows /\
    StronglySorted (fun a b => (timestamp a <= timestamp b)%nat)
      (map view rows).
Proof.
  apply (history_is_the_conversation_in_order sample_db None (Some "alice")
           "conv-1").
  reflexivity.
Defined.

(** Extra X25.  An accepted [POST /] adds one message to the history of its
    conversation and changes nothing else: the next history of that
    conversation is the one before with the new message added, and the
    history of any other conversation is as before. *)
Theorem send_adds_one_message (db db' : Db) (insert_error : option string)
    (req : SendRequest) (resp : Response) (m : MessageView) (other : string) :
  post_message db insert_error req = (resp, db') ->
  body resp = SentBody "Message sent successfully" m ->
  status (get_conversation db None (userId req) (str (conversationId req))) =
    200%nat /\
  Permutation
    (listed_of (get_conversation db' None (userId req)
                  (str (conversationId req))))
    (m :: listed_of (get_conversation db None (userId req)
                       (str (conversationId req)))) /\
  (other <> str (conversationId req) ->
   forall user,
     get_conversation db' None user other =
     get_conversation db None user other).
Proof.
  intros Hpost Hbody.
  assert (Hstatus : status resp = 201%nat).
  { revert Hpost Hbody. unfold post_message.
    repeat match goal with
    | |- context [if ?b then _ else _] => destruct b
    | |- context [match ?x with _ => _ end] => destruct x
    end; intros [= <- <-]; cbn; intros H; try discriminate H; reflexivity. }
  destruct (post_message_created _ _ _ _ _ Hpost Hstatus)
    as (Huser & _ & _ & [c Hc] & row & Hcid & Hrole & Hcontent & Hb
        & Hconvs & Hmsgs).
  rewrite Hb in Hbody. injection Hbody as <-.
  assert (Hget : forall d, conversations d = conversations db ->
    get_conversation d None (userId req) (str (conversationId req)) =
    {| status := 200;
       body := ListBody
         (map view
            (order_by_created_at
               (filter (fun m => String.eqb (conversation_id m)
                                   (str (conversationId req)))
                  (messages d)))) |}).
  { intros d Hd. unfold get_conversation, conversationCheck.
    rewrite Huser, Hd. cbn [negb].
    unfold conversationCheck in Hc. now rewrite Hc. }
  split; [|split].
  - now rewrite (Hget db eq_refl).
  - rewrite (Hget db' Hconvs), (Hget db eq_refl). unfold listed_of. cbn [body].
    rewrite Hmsgs, filter_app. cbn [filter].
    rewrite Hcid, String.eqb_refl.
    rewrite <- (order_by_created_at_perm (_ ++ [row])).
    rewrite <- (order_by_created_at_perm (filter _ (messages db))).
    rewrite map_app. cbn [map].
    apply Permutation_sym, Permutation_cons_append.
  - intros Hother user. unfold get_conversation, conversationCheck.
    rewrite Hconvs, Hmsgs, filter_app. cbn [filter]. rewrite Hcid.
    destruct (String.eqb_spec (str (conversationId req)) other) as [Heq|_];
      [now symmetry in Heq|].
    now rewrite app_nil_r.
Qed.

Lemma send_adds_one_message_witness :
  status (get_conversation sample_db None (Some "alice") "conv-1") = 200%nat /\
  Permutation
    (listed_of (get_conversation (snd (post_message sample_db None sample_send))
                  None (Some "alice") "conv-1"))
    ({| view_id := 1; view_role := "assistant";
        view_content := "Welcome to RAK Porcelain."; timestamp := 4 |}
     :: listed_of (get_conversation sample_db None (Some "alice") "conv-1")) /\
  ("conv-2" <> "conv-1" ->
   forall user,
     get_conversation (snd (post_message sample_db None sample_send))
       None user "conv-2" =
     get_conversation sample_db None user "conv-2").
Proof.
  apply (send_adds_one_message sample_db
           (snd (post_message sample_db None sample_send)) None sample_send
           (fst (post_message sample_db None sample_send))).
  - reflexivity.
  - reflexivity.
Defined.


Lemma single_some {A} (l : list A) (x : A) : single l = Some x -> l = [x].
Proof.
  destruct l as [|y [|z l]]; cbn; intros H; try discriminate H.
  now injection H as ->.
Qed.

Lemma owned_conversation (db : Db) (u : string) (m : MessageRow) :
  NoDup (map conv_id (conversations db)) ->
  owned_by db u m = true ->
  exists c, conversationCheck db (conversation_id m) u = Some c.
Proof.
  unfold owned_by, conversationCheck.
  induction (conversations db) as [|c l IH]; cbn [map existsb filter];
    intros Hnd Hown; [discriminate|].
  inversion_clear Hnd as [|? ? Hc Hl].
  destruct (String.eqb_spec (conv_id c) (conversation_id m)) as [Heq|Hne];
    cbn [andb orb] in *.
  - assert (Hnone : forall c', In c' l ->
                      String.eqb (conv_id c') (conversation_id m) = false).
    { intros c' Hin. apply String.eqb_neq. intros Heq'.
      apply Hc. apply in_map_iff. exists c'. split; [congruence | exact Hin]. }
    assert (Hrest : filter
      (fun r => String.eqb (conv_id r) (conversation_id m)
                && String.eqb (user_id r) u) l = []).
    { clear - Hnone. induction l as [|c' l IH]; [reflexivity|]. cbn.
      rewrite (Hnone c') by now left. cbn. apply IH.
      intros c'' Hin. apply Hnone. now right. }
    destruct (String.eqb (user_id c) u); cbn [orb] in *.
    + rewrite Hrest. exists c. reflexivity.
    + exfalso. rewrite existsb_exists in Hown.
      destruct Hown as (c' & Hin & Hc').
      rewrite (Hnone c' Hin) in Hc'. discriminate Hc'.
  - now apply IH.
Qed.

(** Extra X26.  A [PUT /:id] answered 200 has changed the content of that
    one message and nothing else: the role is as before, every other
    message is as before, and the next history of the message's
    conversation, asked by the same user, shows the message with the new
    content.  (The ids of the conversations are taken to be distinct.) *)
Theorem update_is_read_back (db db' : Db) (update_error : option string)
    (req : UpdateRequest) (resp : Response) :
  NoDup (map conv_id (conversations db)) ->
  put_message db update_error req = (resp, db') ->
  status resp = 200%nat ->
  exists m,
    In m (messages db) /\ id m = update_id req /\
    body resp =
      SentBody "Message updated successfully"
        {| view_id := id m; view_role := role m;
           view_content := str (update_content req);
           timestamp := created_at m |} /\
    (forall m', In m' (messages db) -> id m' <> update_id req ->
                In m' (messages db')) /\
    List.length (messages db') = List.length (messages db) /\
    exists listed,
      get_conversation db' None (update_user req) (conversation_id m) =
        {| status := 200; body := ListBody listed |} /\
      In {| view_id := id m; view_role := role m;
            view_content := str (update_content req);
            timestamp := created_at m |} listed.
Proof.
  intros Hnd Hput Hstatus. revert Hput. unfold put_message.
  destruct (truthy (update_user req)) eqn:Huser; cbn [negb];
    [|intros [= <- <-]; discriminate Hstatus].
  destruct (truthy (update_content req)); cbn [negb];
    [|intros [= <- <-]; discriminate Hstatus].
  destruct (messageCheck db (update_id req) (str (update_user req)))
    as [m0|] eqn:Hcheck; [|intros [= <- <-]; discriminate Hstatus].
  destruct update_error; [intros [= <- <-]; discriminate Hstatus|].
  unfold update_content_of.
  destruct (single (filter (fun m => Nat.eqb (id m) (update_id req))
                      (messages db))) as [m|] eqn:Hone;
    [|intros [= <- <-]; discriminate Hstatus].
  intros [= <- <-].
  apply single_some in Hone, Hcheck.
  assert (Hm : In m (messages db) /\ id m = update_id req).
  { assert (H : In m (filter (fun m => Nat.eqb (id m) (update_id req))
                        (messages db))) by (rewrite Hone; now left).
    apply filter_In in H as [H1 H2]. apply Nat.eqb_eq in H2. auto. }
  assert (Hm0 : m0 = m /\ owned_by db (str (update_user req)) m0 = true).
  { assert (H : In m0 (filter
       (fun m => Nat.eqb (id m) (update_id req)
                 && owned_by db (str (update_user req)) m) (messages db)))
      by (rewrite Hcheck; now left).
    apply filter_In in H as [H1 H2]. apply andb_true_iff in H2 as [H2 H3].
    split; [|exact H3].
    assert (H4 : In m0 (filter (fun m => Nat.eqb (id m) (update_id req))
                          (messages db))) by (apply filter_In; auto).
    rewrite Hone in H4. destruct H4 as [<- | []]. reflexivity. }
  destruct Hm0 as [-> Hown]. destruct Hm as [Hin Hid].
  exists m. split; [exact Hin|]. split; [exact Hid|].
  split; [reflexivity|]. cbn [messages conversations].
  split; [|split].
  - intros m' Hin' Hne. apply in_map_iff. exists m'. split; [|exact Hin'].
    destruct (Nat.eqb_spec (id m') (update_id req)); [contradiction|reflexivity].
  - apply length_map.
  - destruct (owned_conversation db _ m Hnd Hown) as [c Hc].
    eexists. split.
    + unfold get_conversation. rewrite Huser. cbn [negb].
      unfold conversationCheck in *. cbn [conversations]. rewrite Hc.
      reflexivity.
    + change {| view_id := id m; view_role := role m;
                view_content := str (update_content req);
                timestamp := created_at m |}
        with (view (set_content (str (update_content req)) m)).
      apply in_map, order_by_created_at_in, filter_In. cbn [messages].
      split; [|apply String.eqb_refl].
      apply in_map_iff. exists m. split; [|exact Hin].
      rewrite Hid. now rewrite Nat.eqb_refl.
Qed.

Lemma update_is_read_back_witness :
  exists m,
    In m (messages sample_db) /\ id m = 0%nat /\
    body (fst (put_message sample_db None
                 {| update_user := Some "alice"; update_id := 0;
                    update_content := Some "Good morning" |})) =
      SentBody "Message updated successfully"
        {| view_id := id m; view_role := role m;
           view_content := "Good morning";
           timestamp := created_at m |} /\
    (forall m', In m' (messages sample_db) -> id m' <> 0%nat ->
       In m' (messages (snd (put_message sample_db None
                 {| update_user := Some "alice"; update_id := 0;
                    update_content := Some "Good morning" |})))) /\
    List.length (messages (snd (put_message sample_db None
                 {| update_user := Some "alice"; update_id := 0;
                    update_content := Some "Good morning" |}))) =
      List.length (messages sample_db) /\
    exists listed,
      get_conversation (snd (put_message sample_db None
                 {| update_user := Some "alice"; update_id := 0;
                    update_content := Some "Good morning" |}))
        None (Some "alice") (conversation_id m) =
        {| status := 200; body := ListBody listed |} /\
      In {| view_id := id m; view_role := role m;
            view_content := "Good morning";
            timestamp := created_at m |} listed.
Proof.
  apply (update_is_read_back sample_db
           (snd (put_message sample_db None
                 {| update_user := Some "alice"; update_id := 0;
                    update_content := Some "Good morning" |})) None
           {| update_user := Some "alice"; update_id := 0;
              update_content := Some "Good morning" |}
           (fst (put_message sample_db None
                 {| update_user := Some "alice"; update_id := 0;
                    update_content := Some "Good morning" |}))).
  - simpl. repeat constructor; simpl; intuition discriminate.
  - reflexivity.
  - reflexivity.
Defined.

(** Extra X27.  A [DELETE /:id] answered 200 has removed the messages with
    that id and no other, has left the conversations as they were, and no
    later history shows a message with that id. *)
Theorem delete_removes_the_message (db db' : Db)
    (delete_error : option string) (user : option string) (mid : nat)
    (resp : DeleteResponse) :
  delete_message db delete_error user mid = (resp, db') ->
  delete_status resp = 200%nat ->
  (forall m, In m (messages db') <-> In m (messages db) /\ id m <> mid) /\
  conversations db' = conversations db /\
  forall store_error u cid,
    Forall (fun v => view_id v <> mid)
      (listed_of (get_conversation db' store_error u cid)).
Proof.
  unfold delete_message. intros Hdel Hstatus. revert Hdel.
  destruct (truthy user); cbn [negb];
    [|intros [= <- <-]; discriminate Hstatus].
  destruct (messageCheck db mid (str user)) as [checked|];
    [|intros [= <- <-]; discriminate Hstatus].
  destruct delete_error; [intros [= <- <-]; discriminate Hstatus|].
  intros [= <- <-]. cbn [messages conversations].
  assert (Hin : forall m,
    In m (filter (fun m => negb (Nat.eqb (id m) mid)) (messages db)) <->
    In m (messages db) /\ id m <> mid).
  { intros m. rewrite filter_In, negb_true_iff, Nat.eqb_neq. tauto. }
  split; [exact Hin|]. split; [reflexivity|].
  intros store_error u cid. unfold listed_of, get_conversation.
  destruct (truthy u); cbn [negb body]; [|constructor].
  destruct (conversationCheck _ cid (str u)); cbn [body]; [|constructor].
  destruct store_error; cbn [body]; [constructor|].
  apply Forall_forall. intros v Hv.
  apply in_map_iff in Hv as (m & <- & Hm).
  apply (proj1 (order_by_created_at_in _ _)) in Hm.
  apply filter_In in Hm as [Hm _].
  cbn [messages] in Hm. apply Hin in Hm. cbn. tauto.
Qed.

Lemma delete_removes_the_message_witness :
  (forall m,
     In m (messages (snd (delete_message sample_db None (Some "alice") 0)))
     <-> In m (messages sample_db) /\ id m <> 0%nat) /\
  conversations (snd (delete_message sample_db None (Some "alice") 0)) =
    conversations sample_db /\
  forall store_error u cid,
    Forall (fun v => view_id v <> 0%nat)
      (listed_of
         (get_conversation
            (snd (delete_message sample_db None (Some "alice") 0))
            store_error u cid)).
Proof.
  apply (delete_removes_the_message sample_db
           (snd (delete_message sample_db None (Some "alice") 0)) None
           (Some "alice") 0
           (fst (delete_message sample_db None (Some "alice") 0))).
  - reflexivity.
  - reflexivity.
Defined.

End MessageEditsFacts.

(** ** The batches of [processProduct] *)

Module BatchesFacts.
Import Ingest IngestFacts Batches.

Lemma to_records_texts (batch : list Chunk) (embeddings : list (list Q)) :
  map (fun r => (record_text_snippet r, record_metadata r))
    (to_records batch embeddings) =
  map (fun c => (chunk_text c, chunk_metadata c)) batch.
Proof.
  revert embeddings. induction batch as [|c batch IH]; intros embeddings; cbn.
  - reflexivity.
  - now rewrite IH.
Qed.

Lemma firstn_plus {A} (a b : nat) (l : list A) :
  firstn (a + b) l = firstn a l ++ firstn b (skipn a l).
Proof.
  revert l. induction a as [|a IH]; intros l; cbn.
  - reflexivity.
  - destruct l as [|x l]; cbn.
    + now rewrite firstn_nil.
    + now rewrite IH.
Qed.

Lemma skipn_plus {A} (a b : nat) (l : list A) :
  skipn (a + b) l = skipn b (skipn a l).
Proof.
  revert l. induction a as [|a IH]; intros l; cbn.
  - reflexivity.
  - destruct l as [|x l]; cbn.
    + now rewrite skipn_nil.
    + apply IH.
Qed.

Section Loop.
Variable embeddings_batch_api : list text -> option (list (list Q)).
Variable embeddings_insert : list EmbeddingRecord -> option string.

Local Abbreviation loop := (batch_loop embeddings_batch_api embeddings_insert).

Lemma batch_loop_step (fuel : nat) (chunks : list Chunk) (i : Z) :
  loop (S fuel) chunks i =
  if Z.ltb i (Z.of_nat (List.length chunks)) then
    let batch := slice chunks i (i + batchSize) in
    let texts := map chunk_text batch in
    match embeddings_batch_api texts with
    | None =>
        Some ([EmbedBatch texts false; BatchFailed],
              inl "Failed to get embeddings")
    | Some embeddings =>
        let embeddingRecords := to_records batch embeddings in
        match embeddings_insert embeddingRecords with
        | Some msg =>
            Some ([EmbedBatch texts true;
                   InsertBatch embeddingRecords false; BatchFailed],
                  inl ("Failed to insert embeddings: " ++ msg)%string)
        | None =>
            match loop fuel chunks (i + batchSize) with
            | None => None
            | Some (events, outcome) =>
                Some (EmbedBatch texts true
                        :: InsertBatch embeddingRecords true :: events,
                      outcome)
            end
        end
    end
  else Some ([], inr tt).
Proof. reflexivity. Qed.

Lemma batch_loop_stop (chunks : list Chunk) (i : Z) :
  loop 0 chunks i =
  if Z.ltb i (Z.of_nat (List.length chunks)) then None else Some ([], inr tt).
Proof. reflexivity. Qed.

Lemma batch_loop_prefix (chunks : list Chunk) :
  forall (fuel : nat) (i : Z) (events : list batch_event)
         (outcome : string + unit),
    (0 <= i)%Z ->
    loop fuel chunks i = Some (events, outcome) ->
    exists k : nat,
      map (fun r => (record_text_snippet r, record_metadata r))
        (inserted events) =
      firstn (10 * k)
        (map (fun c => (chunk_text c, chunk_metadata c))
           (skipn (Z.to_nat i) chunks)) /\
      (outcome = inr tt ->
       map (fun r => (record_text_snippet r, record_metadata r))
         (inserted events) =
       map (fun c => (chunk_text c, chunk_metadata c))
         (skipn (Z.to_nat i) chunks)).
Proof.
  induction fuel as [|fuel IH]; intros i events outcome Hi.
  - rewrite batch_loop_stop.
    destruct (Z.ltb_spec i (Z.of_nat (List.length chunks))); [discriminate|].
    intros [= <- <-]. exists 0%nat.
    rewrite skipn_all2 by lia. split; reflexivity.
  - rewrite batch_loop_step.
    destruct (Z.ltb_spec i (Z.of_nat (List.length chunks))) as [Hlt|Hge].
    + cbn zeta.
      destruct (embeddings_batch_api _) as [embeddings|].
      * destruct (embeddings_insert _) as [msg|].
        -- intros [= <- <-]. exists 0%nat. split; [reflexivity | discriminate].
        -- destruct (loop fuel chunks (i + batchSize))
             as [[events' outcome']|] eqn:Hrec; [|discriminate].
           intros [= <- <-].
           assert (Hi' : (0 <= i + batchSize)%Z) by (unfold batchSize; lia).
           destruct (IH _ _ _ Hi' Hrec) as (k & Hk & Hall).
           cbn [inserted]. rewrite map_app, to_records_texts.
           rewrite slice_window by (unfold batchSize; lia).
           assert (Hnext : Z.to_nat (i + batchSize) = (Z.to_nat i + 10)%nat)
             by (unfold batchSize; lia).
           rewrite Hnext, skipn_plus in *.
           change (Z.to_nat batchSize) with 10%nat.
           set (rest := skipn (Z.to_nat i) chunks) in *.
           exists (S k). split.
           ++ replace (10 * S k)%nat with (10 + 10 * k)%nat by lia.
              rewrite firstn_plus, Hk.
              rewrite skipn_map. f_equal.
              first [apply firstn_map | symmetry; apply firstn_map].
           ++ intros Hout. rewrite (Hall Hout).
              rewrite <- map_app. now rewrite firstn_skipn.
      * intros [= <- <-]. exists 0%nat. split; [reflexivity | discriminate].
    + intros [= <- <-]. exists 0%nat.
      rewrite skipn_all2 by lia. split; reflexivity.
Qed.

(** Extra X29.  Whatever the embedding API and the store answer, what the
    batch loop of [processProduct] has inserted when it stops is a prefix
    of the chunks, in their order and in whole batches of ten, with the
    text and the metadata of each chunk; when the loop ends without error
    it is all the chunks.  Nothing is taken back after a failed batch. *)
Theorem batches_insert_a_prefix (chunks : list Chunk) (fuel : nat)
    (events : list batch_event) (outcome : string + unit) :
  loop fuel chunks 0 = Some (events, outcome) ->
  exists k : nat,
    map (fun r => (record_text_snippet r, record_metadata r))
      (inserted events) =
    firstn (10 * k) (map (fun c => (chunk_text c, chunk_metadata c)) chunks) /\
    (outcome = inr tt ->
     map (fun r => (record_text_snippet r, record_metadata r))
       (inserted events) =
     map (fun c => (chunk_text c, chunk_metadata c)) chunks).
Proof.
  intros Hrun.
  exact (batch_loop_prefix chunks fuel 0 events outcome (Z.le_refl 0) Hrun).
Qed.

Lemma batch_loop_calls (chunks : list Chunk) :
  (forall texts, embeddings_batch_api texts <> None) ->
  (forall records, embeddings_insert records = None) ->
  forall (fuel : nat) (i : Z),
    (0 <= i)%Z ->
    (-10 < Z.of_nat (List.length chunks) - i <= Z.of_nat fuel)%Z ->
    exists events,
      loop fuel chunks i = Some (events, inr tt) /\
      concat (embed_calls events) =
        map chunk_text (skipn (Z.to_nat i) chunks) /\
      Forall (fun texts => (1 <= List.length texts <= 10)%nat)
        (embed_calls events) /\
      Z.of_nat (List.length (embed_calls events)) =
        ((Z.of_nat (List.length chunks) - i + 9) / 10)%Z.
Proof.
  intros Hapi Hins.
  induction fuel as [|fuel IH]; intros i Hi Hfuel.
  - rewrite batch_loop_stop.
    destruct (Z.ltb_spec i (Z.of_nat (List.length chunks))); [lia|].
    exists []. rewrite skipn_all2 by lia. cbn.
    repeat split; [constructor|].
    symmetry. apply Z.div_small. lia.
  - rewrite batch_loop_step.
    destruct (Z.ltb_spec i (Z.of_nat (List.length chunks))) as [Hlt|Hge].
    + cbn zeta.
      destruct (embeddings_batch_api _) as [embeddings|] eqn:He;
        [|now apply Hapi in He].
      rewrite Hins.
      destruct (IH (i + batchSize)%Z) as (events & -> & Hcat & Hsize & Hn);
        [unfold batchSize; lia | unfold batchSize; lia |].
      eexists. split; [reflexivity|].
      cbn [embed_calls concat List.length].
      rewrite slice_window in * by (unfold batchSize; lia).
      assert (Hnext : Z.to_nat (i + batchSize) = (Z.to_nat i + 10)%nat)
        by (unfold batchSize; lia).
      rewrite Hnext, skipn_plus in Hcat.
      change (Z.to_nat batchSize) with 10%nat.
      set (rest := skipn (Z.to_nat i) chunks) in *.
      assert (Hrest : List.length rest =
                      (List.length chunks - Z.to_nat i)%nat)
        by apply length_skipn.
      split; [|split].
      * rewrite Hcat, <- map_app. now rewrite firstn_skipn.
      * constructor; [|exact Hsize].
        rewrite length_map, length_firstn. lia.
      * rewrite Nat2Z.inj_succ, Hn. unfold batchSize.
        replace (Z.of_nat (List.length chunks) - i + 9)%Z
          with ((Z.of_nat (List.length chunks) - (i + 10) + 9) + 1 * 10)%Z
          by lia.
        rewrite Z.div_add by lia. lia.
    + exists []. rewrite skipn_all2 by lia. cbn.
      repeat split; [constructor|].
      symmetry. apply Z.div_small. lia.
Qed.

(** Extra X28.  When the embedding API and the store answer every call, the
    batch loop of [processProduct] ends without error for every fuel of at
    least the number of chunks; the texts sent to the API, batch after
    batch, are the texts of the chunks in their order, each once; every
    batch has from one to ten texts; and the API is called once per started
    ten of chunks. *)
Theorem batches_cover_the_chunks (chunks : list Chunk) (fuel : nat) :
  (forall texts, embeddings_batch_api texts <> None) ->
  (forall records, embeddings_insert records = None) ->
  (List.length chunks <= fuel)%nat ->
  exists events,
    loop fuel chunks 0 = Some (events, inr tt) /\
    concat (embed_calls events) = map chunk_text chunks /\
    Forall (fun texts => (1 <= List.length texts <= 10)%nat)
      (embed_calls events) /\
    Z.of_nat (List.length (embed_calls events)) =
      ((Z.of_nat (List.length chunks) + 9) / 10)%Z.
Proof.
  intros Hapi Hins Hfuel.
  destruct (batch_loop_calls chunks Hapi Hins fuel 0)
    as (events & Hrun & Hcat & Hsize & Hn); [lia | lia |].
  exists events. rewrite Z.sub_0_r in Hn. auto.
Qed.

End Loop.

Lemma batches_cover_the_chunks_witness :
  exists events,
    batch_loop sample_batch_api (fun _ => None) 12 sample_chunks 0 =
      Some (events, inr tt) /\
    concat (embed_calls events) = map chunk_text sample_chunks /\
    Forall (fun texts => (1 <= List.length texts <= 10)%nat)
      (embed_calls events) /\
    Z.of_nat (List.length (embed_calls events)) =
      ((Z.of_nat (List.length sample_chunks) + 9) / 10)%Z.
Proof.
  apply (batches_cover_the_chunks sample_batch_api (fun _ => None)
           sample_chunks 12).
  - intros texts. discriminate.
  - reflexivity.
  - simpl. lia.
Defined.

Lemma batches_insert_a_prefix_witness :
  exists k : nat,
    map (fun r => (record_text_snippet r, record_metadata r))
      (inserted
         (events_of
            (batch_loop sample_batch_api store_of_full_batches 12
               sample_chunks 0))) =
    firstn (10 * k)
      (map (fun c => (chunk_text c, chunk_metadata c)) sample_chunks) /\
    (@inl string unit "Failed to insert embeddings: disk full" = inr tt ->
     map (fun r => (record_text_snippet r, record_metadata r))
       (inserted
          (events_of
             (batch_loop sample_batch_api store_of_full_batches 12
                sample_chunks 0))) =
     map (fun c => (chunk_text c, chunk_metadata c)) sample_chunks).
Proof.
  apply (batches_insert_a_prefix sample_batch_api store_of_full_batches
           sample_chunks 12).
  reflexivity.
Defined.

End BatchesFacts.

(** ** [chunkText] on numbers *)

Module IngestNumbersFacts.
Import Ingest IngestFacts IngestNumbers.

Lemma to_integer_of_integer (q : Q) (z : Z) :
  q == inject_Z z -> to_integer q = z.
Proof.
  unfold Qeq, to_integer. cbn. intros H.
  rewrite Z.mul_1_r in H. rewrite H. apply Z.quot_mul. discriminate.
Qed.

Lemma Qltb_of_integers (q : Q) (z n : Z) :
  q == inject_Z z -> Qltb q (inject_Z n) = Z.ltb z n.
Proof.
  intros Hq. unfold Qltb.
  destruct (Z.ltb_spec z n) as [Hlt|Hge].
  - apply negb_true_iff. destruct (Qle_bool (inject_Z n) q) eqn:Hle;
      [|reflexivity].
    apply Qle_bool_iff in Hle. rewrite Hq in Hle.
    rewrite <- Zle_Qle in Hle. lia.
  - apply negb_false_iff. apply Qle_bool_iff. rewrite Hq.
    rewrite <- Zle_Qle. exact Hge.
Qed.

(** On integers the loop on numbers is the loop on integers. *)
Lemma chunk_loop_number_on_integers (words : list text)
    (chunkSize overlap : Z) :
  forall (fuel : nat) (q : Q) (i : Z) (chunks : list text),
    q == inject_Z i ->
    chunk_loop_number fuel words (inject_Z chunkSize) (inject_Z overlap)
      q chunks =
    chunk_loop fuel words chunkSize overlap i chunks.
Proof.
  induction fuel as [|fuel IH]; intros q i chunks Hq; cbn [chunk_loop_number].
  - rewrite chunk_loop_stop, (Qltb_of_integers q i _ Hq). reflexivity.
  - rewrite chunk_loop_step, (Qltb_of_integers q i _ Hq).
    destruct (Z.ltb i (Z.of_nat (List.length words))); [|reflexivity].
    rewrite (to_integer_of_integer q i Hq).
    rewrite (to_integer_of_integer (q + inject_Z chunkSize) (i + chunkSize))
      by (rewrite Hq, inject_Z_plus; reflexivity).
    apply IH.
    rewrite Hq. unfold Qminus, Z.sub.
    rewrite !inject_Z_plus, inject_Z_opp. reflexivity.
Qed.

Lemma chunkText_number_on_integers (fuel : nat) (t : text)
    (chunkSize overlap : Z) :
  chunkText_number fuel t (inject_Z chunkSize) (inject_Z overlap) =
  chunkText fuel t chunkSize overlap.
Proof.
  unfold chunkText_number, chunkText.
  apply chunk_loop_number_on_integers. reflexivity.
Qed.

Lemma chunk_loop_number_more_fuel (words : list text) (chunkSize overlap : Q) :
  forall (fuel extra : nat) (i : Q) (chunks result : list text),
    chunk_loop_number fuel words chunkSize overlap i chunks = Some result ->
    chunk_loop_number (fuel + extra) words chunkSize overlap i chunks =
      Some result.
Proof.
  induction fuel as [|fuel IH]; intros extra i chunks result;
    cbn [chunk_loop_number Nat.add].
  - destruct (Qltb i (inject_Z (Z.of_nat (List.length words)))) eqn:Hlt;
      [discriminate|].
    intros [= <-]. destruct extra; cbn [chunk_loop_number]; now rewrite Hlt.
  - destruct (Qltb i (inject_Z (Z.of_nat (List.length words))));
      [apply IH | trivial].
Qed.

(** The claim fails whichever single meaning "word" is given, and its size
    bound fails for parameters that are not integers: with [chunkSize] 1.5
    and [overlap] 1 the turn at index 0.5 slices from 0 to 2 and makes the
    chunk [a b], of two words. *)
Lemma chunk_claim_fails :
  ~ chunk_contract (split_by is_space) /\
  ~ chunk_contract ws_words /\
  (0 <= 1 < 3 # 2 /\
   (forall fuel, (6 <= fuel)%nat ->
      chunkText_number fuel (of_string "a b c") (3 # 2) 1 =
        Some [of_string "a"; of_string "a b"; of_string "b";
              of_string "b c"; of_string "c"; of_string "c"]) /\
   List.length (split_by is_space (of_string "a b")) = 2%nat /\
   List.length (ws_words (of_string "a b")) = 2%nat /\
   ~ inject_Z 2 <= 3 # 2).
Proof.
  split; [apply chunk_contract_fails|].
  split; [apply chunk_contract_fails|].
  split; [split; [discriminate | reflexivity]|].
  split.
  - intros fuel Hfuel.
    replace fuel with (6 + (fuel - 6))%nat by lia.
    apply chunk_loop_number_more_fuel. reflexivity.
  - split; [reflexivity|]. split; [reflexivity|].
    intros H. apply H. reflexivity.
Qed.

End IngestNumbersFacts.
